(** * PYPIT: master-frame propagation, science set-up and boxcar extraction

    A shallow embedding of [pypit/armbase.py] ([SetupScience],
    [UpdateMasters]) and of [boxcar] of [src/arextract.py], with the
    properties of the specification stated against it. [obj_profiles] of
    [src/arextract.py] is left out: its [for] statement of line 140 has no
    body, so that the function has no behaviour to embed. *)

From Stdlib Require Import ZArith Bool Lia DecimalString DecimalZ.
From Stdlib Require Import Floats.SpecFloat.
From stdpp Require Import gmap strings list pretty vector finite.

Local Open Scope string_scope.
Local Open Scope list_scope.

(** ** Numeric arrays

    numpy's float arrays hold IEEE 754 binary64 values; they are modelled by
    the Standard Library's specification of floats, [spec_float], at
    precision 53 and maximal exponent 1024. *)

Definition float := spec_float.
Definition prec : Z := 53.
Definition emax : Z := 1024.

Definition fadd : float -> float -> float := SFadd prec emax.
Definition fsub : float -> float -> float := SFsub prec emax.
Definition fmul : float -> float -> float := SFmul prec emax.
Definition fdiv : float -> float -> float := SFdiv prec emax.

Definition fzero : float := S754_zero false.
Definition fone : float := SFone prec emax.

(** [x > y] on floats: false as soon as one side is NaN. *)
Definition fgt (x y : float) : bool := SFltb y x.

(** [np.isnan]. *)
Definition isnan (x : float) : bool :=
  match x with S754_nan => true | _ => false end.

(** A two-dimensional array, row by row. *)
Definition ndarray2 := list (list float).

(** ** Messages and exceptions *)

(** What the logger [msgs] has been asked to print, and the breakpoints
    [debugger.set_trace()] reached.

    Modelled from the spec: [msgs.info], [msgs.warn] and [msgs.bug] of
    [armsgs.py] record a message (for [bug], a defect) and return. *)
Inductive msg :=
| Info (s : string)
| Warn (s : string)
| Bug (s : string)
| SetTrace.

(** The exceptions the modelled code can raise. *)
Inductive exn :=
| IndexError
| AttributeError
| KeyError (k : string)
| ValueError
| UnboundLocalError
| SystemExit
| TypeError
| FatalError (s : string).

(** How a statement of a loop body ends: it falls through to the next
    iteration, it executes [return], or it raises. *)
Inductive ctl :=
| Next
| Return
| Raise (e : exn).

(** A value or an exception. *)
Inductive result (A : Type) :=
| Ok (a : A)
| Error (e : exn).

Arguments Ok {A} a.
Arguments Error {A} e.

#[global] Instance result_ret : MRet result := fun A a => Ok a.

#[global] Instance result_bind : MBind result :=
  fun A B f r => match r with Ok a => f a | Error e => Error e end.

(** Python's [l[i]]: a negative index counts from the end. *)
Definition pyindex {A} (l : list A) (i : Z) : result A :=
  let n := Z.of_nat (length l) in
  let j := if (i <? 0)%Z then (i + n)%Z else i in
  if (0 <=? j)%Z then
    match l !! Z.to_nat j with
    | Some x => Ok x
    | None => Error IndexError
    end
  else Error IndexError.

(** [d[k]] on a dict with string keys. *)
Definition getitem {V} (d : gmap string V) (k : string) : result V :=
  match d !! k with
  | Some v => Ok v
  | None => Error (KeyError k)
  end.

(** ** Science exposures *)

Definition MasterFrame := ndarray2.

(** The attributes of [arsciexp.ScienceExposure] that [armbase] reads: the
    index arrays of the frames each calibration is built from, and the
    master frames.

    Modelled from the spec: the class [ScienceExposure] of [arsciexp.py];
    for each calibration type and detector it holds an optional,
    already-computed master frame, here the finite map [masters] from
    (type, detector) to the frame. *)
Record ScienceExposure := {
  _idx_sci : list Z;
  _idx_arcs : list Z;
  _idx_bias : list Z;
  _idx_rn : list Z;
  _idx_trace : list Z;
  _idx_flat : list Z;
  _idx_std : list Z;
  masters : gmap (string * Z) MasterFrame
}.

(** Modelled from the spec: [ScienceExposure.GetMasterFrame(ftype, det,
    mkcopy=False)], the existence check that makes no copy: the slot as it
    is, [None] when no master frame was set. *)
Definition GetMasterFrame_nocopy (e : ScienceExposure) (ftype : string) (det : Z)
  : option MasterFrame :=
  masters e !! (ftype, det).

(** Modelled from the spec: [ScienceExposure.GetMasterFrame(ftype, det)], a
    copy of the master frame; copying a slot that holds [None] raises
    [AttributeError]. *)
Definition GetMasterFrame (e : ScienceExposure) (ftype : string) (det : Z)
  : result MasterFrame :=
  match masters e !! (ftype, det) with
  | Some f => Ok f
  | None => Error AttributeError
  end.

(** Modelled from the spec: [ScienceExposure.SetMasterFrame(frame, ftype,
    det)] stores (a copy of) [frame] in the slot of [ftype] and [det]. *)
Definition SetMasterFrame (e : ScienceExposure) (frame : MasterFrame)
    (ftype : string) (det : Z) : ScienceExposure :=
  {| _idx_sci := _idx_sci e; _idx_arcs := _idx_arcs e; _idx_bias := _idx_bias e;
     _idx_rn := _idx_rn e; _idx_trace := _idx_trace e; _idx_flat := _idx_flat e;
     _idx_std := _idx_std e;
     masters := <[(ftype, det) := frame]> (masters e) |}.

(** [np.array_equal] on two one-dimensional integer arrays: same shape and
    the same entry at every position. *)
Definition array_equal (a b : list Z) : bool := bool_decide (a = b).

(** ** The state [UpdateMasters] works on

    The list [sciexp] is shared with the caller and its elements are
    updated in place; the log collects the calls to [msgs]. *)
Record world := {
  sciexp : list ScienceExposure;
  log : list msg
}.

Definition emit (m : msg) (w : world) : world :=
  {| sciexp := sciexp w; log := log w ++ [m] |}.

Definition set_exposure (i : nat) (e : ScienceExposure) (w : world) : world :=
  {| sciexp := <[i := e]> (sciexp w); log := log w |}.

(** [for i in range(lo, hi): body], with [return] and exceptions leaving the
    loop. *)
Fixpoint for_each (idxs : list nat) (body : nat -> world -> ctl * world)
    (w : world) : ctl * world :=
  match idxs with
  | [] => (Next, w)
  | i :: rest =>
      match body i w with
      | (Next, w') => for_each rest body w'
      | stop => stop
      end
  end.

Definition range (lo hi : nat) : list nat := seq lo (hi - lo).

(** *** The messages of [UpdateMasters] *)

Definition bug_type (ftype : string) : msg :=
  Bug ("I could not update frame of type: " +:+ ftype).

Definition bug_subtype (ftype chktype : string) : msg :=
  Bug ("I could not update frame of type " +:+ ftype +:+ " and subtype " +:+ chktype).

Definition info_update (ftype : string) (i numsci : nat) : msg :=
  Info ("Updating master " +:+ ftype +:+ " frame for science target "
        +:+ pretty (i + 1) +:+ "/" +:+ pretty numsci).

(** *** [UpdateMasters] *)

(** The guarded copy shared by the three loops:
[[
  if np.array_equal(chkarr, chkfarr) and sciexp[i].GetMasterFrame(totype, det, mkcopy=False) is None:
      msgs.info(...)
      sciexp[i].SetMasterFrame(sciexp[sc].GetMasterFrame(fromtype, det), totype, det)
]] *)
Definition copy_master (sc : nat) (det : Z) (chkarr chkfarr : list Z)
    (fromtype totype : string) (numsci i : nat) (w : world) : ctl * world :=
  match sciexp w !! i with
  | None => (Raise IndexError, w)
  | Some ei =>
      if array_equal chkarr chkfarr
         && bool_decide (GetMasterFrame_nocopy ei totype det = None)
      then
        let w1 := emit (info_update totype i numsci) w in
        match sciexp w1 !! sc with
        | None => (Raise IndexError, w1)
        | Some esc =>
            match GetMasterFrame esc fromtype det with
            | Error e => (Raise e, w1)
            | Ok frame => (Next, set_exposure i (SetMasterFrame ei frame totype det) w1)
            end
        end
      else (Next, w)
  end.

(** One iteration for the exposure [i], once the if-chain at the head of the
    loop has chosen the index array [field] of [sciexp[i]] (the chain is
    evaluated before [sciexp[i]] is). *)
Definition copy_at (sc : nat) (det : Z) (chkarr : list Z)
    (field : ScienceExposure -> list Z) (fromtype totype : string)
    (numsci i : nat) (w : world) : ctl * world :=
  match sciexp w !! i with
  | None => (Raise IndexError, w)
  | Some ei => copy_master sc det chkarr (field ei) fromtype totype numsci i w
  end.

(** The body of the two loops of the ["flat"] branch (lines 172-181 and
    186-195): [chktype] is the subtype whose index array and slot are
    examined, [origtype] the subtype the frame is taken from. *)
Definition flat_body (sc : nat) (det : Z) (ftype : string) (chkarr : list Z)
    (origtype chktype : string) (numsci i : nat) (w : world) : ctl * world :=
  if String.eqb chktype "trace" then
    copy_at sc det chkarr _idx_trace origtype chktype numsci i w
  else if String.eqb chktype "pixelflat" then
    copy_at sc det chkarr _idx_flat origtype chktype numsci i w
  else (Return, emit (bug_subtype ftype chktype) w).

(** The body of the loop of the other types (lines 197-208). *)
Definition plain_body (sc : nat) (det : Z) (ftype : string) (chkarr : list Z)
    (numsci i : nat) (w : world) : ctl * world :=
  if String.eqb ftype "arc" then
    copy_at sc det chkarr _idx_arcs ftype ftype numsci i w
  else if String.eqb ftype "bias" then
    copy_at sc det chkarr _idx_bias ftype ftype numsci i w
  else if String.eqb ftype "standard" then
    copy_at sc det chkarr _idx_std ftype ftype numsci i w
  else (Return, emit (bug_type ftype) w).

(** Lines 183-185: the other subtype of a flat. *)
Definition other_subtype (chktype : string) : string :=
  if String.eqb chktype "trace" then "pixelflat"
  else if String.eqb chktype "pixelflat" then "trace"
  else chktype.

(** Lines 171-195, the two loops of a flat, once [chkarr] is known. *)
Definition propagate_flat (sc : nat) (det : Z) (ftype chktype : string)
    (chkarr : list Z) (w : world) : ctl * world :=
  let numsci := length (sciexp w) in
  match for_each (range (sc + 1) numsci)
                 (flat_body sc det ftype chkarr chktype chktype numsci) w with
  | (Next, w1) =>
      let origtype := chktype in
      let chktype := other_subtype chktype in
      match for_each (range sc numsci)
                     (flat_body sc det ftype chkarr origtype chktype numsci) w1 with
      | (Next, w2) => (Return, w2)
      | stop => stop
      end
  | stop => stop
  end.

(** Lines 197-209, the loop of the other types, which does not read
    [chktype]. *)
Definition propagate_plain (sc : nat) (det : Z) (ftype : string)
    (chkarr : list Z) (w : world) : ctl * world :=
  let numsci := length (sciexp w) in
  match for_each (range (sc + 1) numsci)
                 (plain_body sc det ftype chkarr numsci) w with
  | (Next, w1) => (Return, w1)
  | stop => stop
  end.

(** The arguments [ftype] and [chktype] are strings, or [None] when the
    caller leaves them at their default. [arg_is x s] is the test
    [x == s]. *)
Definition arg_is (x : option string) (s : string) : bool :=
  match x with
  | Some t => String.eqb t s
  | None => false
  end.

(** ["{0:s}".format(x)]: a string is inserted as it is; [None] does not
    take the format code [s], and formatting it raises [TypeError]
    (Python 3). *)
Definition format_s (x : option string) : result string :=
  match x with
  | Some t => Ok t
  | None => Error TypeError
  end.

(** [msgs.bug(text); return]: the text is formatted before [msgs.bug] is
    called. *)
Definition bug_return (text : result msg) (w : world) : ctl * world :=
  match text with
  | Ok m => (Return, emit m w)
  | Error e => (Raise e, w)
  end.

(** [UpdateMasters(sciexp, sc, det, ftype=None, chktype=None)]. The result
    is [Return] when the call returns and [Raise e] when it raises; [sc] is
    an index of [sciexp], so a natural number. The if-chain of lines
    156-169 is followed by the loops of lines 170-209; in each branch of
    the chain [ftype] (and, for a flat, [chktype]) is the string just
    tested, so that the test [ftype == "flat"] of line 170 holds in the
    branch of the flats only. *)
Definition UpdateMasters (sc : nat) (det : Z) (ftype chktype : option string)
    (w : world) : ctl * world :=
  let at_sc (field : ScienceExposure -> list Z)
            (loops : list Z -> world -> ctl * world) :=
    match sciexp w !! sc with
    | None => (Raise IndexError, w)
    | Some esc => loops (field esc) w
    end in
  if arg_is ftype "arc" then at_sc _idx_arcs (propagate_plain sc det "arc")
  else if arg_is ftype "bias" then at_sc _idx_bias (propagate_plain sc det "bias")
  else if arg_is ftype "readnoise" then
    at_sc _idx_rn (propagate_plain sc det "readnoise")
  else if arg_is ftype "flat" then
    if arg_is chktype "trace" then
      at_sc _idx_trace (propagate_flat sc det "flat" "trace")
    else if arg_is chktype "pixelflat" then
      at_sc _idx_flat (propagate_flat sc det "flat" "pixelflat")
    else bug_return (f ← format_s ftype; c ← format_s chktype;
                     mret (bug_subtype f c)) w
  else if arg_is ftype "standard" then
    at_sc _idx_std (propagate_plain sc det "standard")
  else bug_return (f ← format_s ftype; mret (bug_type f)) w.

(* ================================================================= *)
(** ** Extraction: [arextract.py] *)

(** [float(z)] for an integer [z]. *)
Definition of_Z (z : Z) : float := binary_normalize prec emax z 0 false.

(** [mask_flags = dict(bad_pix=2**0, CR=2**1, NAN=2**5)]. *)
Definition mask_flags : gmap string Z :=
  {[ "bad_pix" := 2 ^ 0; "CR" := 2 ^ 1; "NAN" := 2 ^ 5 ]}%Z.

(** *** [np.sum] along a row

    [np.sum(a, axis=1)] reduces each row of [a] with [np.add]: the result
    starts at the identity [0.0], to which numpy adds the pairwise sum of
    the row's entries ([DOUBLE_pairwise_sum] of numpy's [loops_utils]).
    The order of the additions matters, since each one rounds. *)

(** The eight running sums are added as
    [((r0 + r1) + (r2 + r3)) + ((r4 + r5) + (r6 + r7))]. *)
Definition sum8 (r : list float) : float :=
  let r_ (i : nat) := default fzero (r !! i) in
  fadd (fadd (fadd (r_ 0%nat) (r_ 1%nat)) (fadd (r_ 2%nat) (r_ 3%nat)))
       (fadd (fadd (r_ 4%nat) (r_ 5%nat)) (fadd (r_ 6%nat) (r_ 7%nat))).

(** [k] further blocks of eight entries are added, entry by entry, into the
    eight running sums [r]; what is left of the row comes back with them. *)
Fixpoint add_blocks (k : nat) (r a : list float) : list float * list float :=
  match k with
  | O => (r, a)
  | S k => add_blocks k (zip_with fadd r (take 8 a)) (drop 8 a)
  end.

(** A row of 8 to 128 entries: the running sums start as the first eight
    entries, take the following whole blocks of eight, are added up, and
    the entries left over (fewer than eight) are added one by one. *)
Definition unrolled_sum (a : list float) : float :=
  let blocks := add_blocks (length a / 8 - 1) (take 8 a) (drop 8 a) in
  fold_left fadd blocks.2 (sum8 blocks.1).

(** The pairwise sum: fewer than 8 entries are added from left to right;
    up to 128 entries go through the running sums; a longer row is cut in
    two at [n2 = n / 2 - (n / 2) % 8] and the sums of the two parts are
    added. [fuel] bounds the depth of the cuts. *)
Fixpoint pairwise_sum_rec (fuel : nat) (a : list float) : float :=
  let n := length a in
  if (n <? 8)%nat then fold_left fadd a fzero
  else if (n <=? 128)%nat then unrolled_sum a
  else
    match fuel with
    | O => unrolled_sum a
    | S fuel =>
        let n2 := (n / 2 - (n / 2) mod 8)%nat in
        fadd (pairwise_sum_rec fuel (take n2 a)) (pairwise_sum_rec fuel (drop n2 a))
    end.

(** Each cut shortens the row, so that its length is fuel enough (lemma
    [pairwise_sum_rec_fuel]). *)
Definition pairwise_sum (a : list float) : float :=
  pairwise_sum_rec (length a) a.

(** [np.sum] along a row. *)
Definition row_sum {n} (row : vec float n) : float :=
  fadd fzero (pairwise_sum (vec_to_list row)).

(** [np.linspace(0.0, 1.0, num)]: [arange(num) * step + start] with the
    last entry set to the end point. *)
Definition linspace01 (num : nat) : vec float num :=
  let step := fdiv (fsub fone fzero) (of_Z (Z.of_nat num - 1)) in
  fun_to_vec (fun i : fin num =>
    if (num =? 1)%nat then fzero
    else if (S (fin_to_nat i) =? num)%nat then fone
    else fadd (fmul (of_Z (Z.of_nat (fin_to_nat i))) step) fzero).

Section Extraction.

(** The detector frames have [ny] rows (the spectral direction) and [nx]
    columns; [nobj] objects were traced. *)
Context {ny nx nobj : nat}.

Abbreviation image := (vec (vec float nx) ny).
Abbreviation column := (vec float ny).
Abbreviation cube := (vec (vec (vec float nobj) nx) ny).

(** [arcyutils.func2d_fit_val(bgfit, sciframe, weights, order)], the
    row-by-row polynomial fit of the background: a compiled routine of
    [arcyutils], kept as a parameter. *)
Variable func2d_fit_val : vec float nx -> image -> image -> Z -> image.

(** The dictionary [scitrace]. *)
Record Scitrace := {
  traces : vec (vec float nobj) ny;
  object : cube;
  background : cube
}.

(** The attributes of the reduction object [slf] that [boxcar] reads, one
    entry per detector. *)
Record Slf := {
  _mswave : list image;
  _bpix : list image
}.

(** A [SpecObj] of [arspecobj.py]: its method [check_trace], which says
    whether a trace matches the object, and its dictionary [boxcar], whose
    entries are absent until they are filled. *)
Record SpecObj := {
  check_trace : column -> bool;
  boxcar_wave : option column;
  boxcar_counts : option column;
  boxcar_var : option column;
  boxcar_sky : option column;
  boxcar_mask : option (vec Z ny)
}.

(** The state of an extraction pass: the list [specobjs], whose elements
    are updated in place, and the log. *)
Record pass := {
  specobjs : list SpecObj;
  plog : list msg
}.

Definition say (m : msg) (st : pass) : pass :=
  {| specobjs := specobjs st; plog := plog st ++ [m] |}.

(** [a[:,:,o]] and [a[:,o]]. *)
Definition slice3 (a : cube) (o : fin nobj) : image :=
  vmap (vmap (fun v => v !!! o)) a.

Definition slice2 (a : vec (vec float nobj) ny) (o : fin nobj) : column :=
  vmap (fun v => v !!! o) a.

(** Elementwise operations on frames of one shape, and [np.sum(a, axis=1)]. *)
Definition img2 (f : float -> float -> float) (a b : image) : image :=
  vzip_with (vzip_with f) a b.

Definition sum_axis1 (a : image) : column := vmap row_sum a.

(** [mask[sel] += flag]. *)
Definition add_flag (sel : vec bool ny) (flag : Z) (mask : vec Z ny) : vec Z ny :=
  vzip_with (fun (b : bool) v => if b then (v + flag)%Z else v) sel mask.

(** [a[sel] = 0.]. *)
Definition zero_where (sel : vec bool ny) (a : column) : column :=
  vzip_with (fun (b : bool) v => if b then fzero else v) sel a.

(** [np.sum(sel) > 0]. *)
Definition any_true (sel : vec bool ny) : bool :=
  existsb (fun b : bool => b) (vec_to_list sel).

(** What the body of the loop has computed for one object when it reaches
    the NaN test (lines 59-88). *)
Record sums := {
  s_bgframe : image;
  s_wvsum : column;
  s_skysum : column;
  s_scisum : column;
  s_varsum : column;
  s_boxmask : vec Z ny
}.

Definition boxcar_sums (mswave bpix sciframe varframe skyframe cr_mask : image)
    (scitrace : Scitrace) (flag_bp flag_cr : Z) (o : fin nobj) : sums :=
  let bgfitord := 1%Z in
  let bgfit := linspace01 nx in
  let bgframe :=
    func2d_fit_val bgfit sciframe
      (img2 fmul (slice3 (background scitrace) o) cr_mask) bgfitord in
  let weight := slice3 (object scitrace) o in
  let sumweight := sum_axis1 weight in
  let wvsum := vzip_with fdiv (sum_axis1 (img2 fmul mswave weight)) sumweight in
  let skysum := vzip_with fdiv (sum_axis1 (img2 fmul skyframe weight)) sumweight in
  let scisum := sum_axis1 (img2 fmul (img2 fsub sciframe bgframe) weight) in
  let varsum := sum_axis1 (img2 fmul varframe weight) in
  let boxmask := vreplicate ny 0%Z in
  let BPs := sum_axis1 (img2 fmul weight bpix) in
  let bp := vmap (fun v => fgt v fzero) BPs in
  let boxmask := add_flag bp flag_bp boxmask in
  let CRs := sum_axis1 (img2 fmul weight cr_mask) in
  let cr := vmap (fun v => fgt v fzero) CRs in
  let boxmask := add_flag cr flag_cr boxmask in
  {| s_bgframe := bgframe; s_wvsum := wvsum; s_skysum := skysum;
     s_scisum := scisum; s_varsum := varsum; s_boxmask := boxmask |}.

(** Lines 76-78: [bgcorr[gdp] = bgframe[gdp]] where
    [background + object > 0]. *)
Definition update_bgcorr (scitrace : Scitrace) (o : fin nobj)
    (bgframe bgcorr : image) : image :=
  let tmp := img2 fadd (slice3 (background scitrace) o) (slice3 (object scitrace) o) in
  vzip_with (fun trow bc => vzip_with (fun (t : float) (p : float * float) =>
                                          if fgt t fzero then p.1 else p.2)
                                       trow bc)
            tmp (vzip_with (vzip_with pair) bgframe bgcorr).

(** Lines 101-106. *)
Definition fill (so : SpecObj) (wvsum scisum varsum skysum : column)
    (boxmask : vec Z ny) : SpecObj :=
  {| check_trace := check_trace so;
     boxcar_wave := Some wvsum;
     boxcar_counts := Some scisum;
     boxcar_var := Some varsum;
     boxcar_sky := Some skysum;
     boxcar_mask := Some boxmask |}.

(** The body of the loop on objects (lines 54-106); [bgcorr] is the
    background image built so far. *)
Definition boxcar_object (slf : Slf) (det : Z)
    (sciframe varframe skyframe cr_mask : image) (scitrace : Scitrace)
    (o : fin nobj) (acc : image * pass) : result image * pass :=
  let '(bgcorr, st) := acc in
  let st := say (Info ("Performing boxcar extraction on object "
                       +:+ pretty (fin_to_nat o + 1) +:+ "/" +:+ pretty nobj)) st in
  let st := say (Info "   Fitting the background") st in
  match pyindex (_mswave slf) (det - 1) with
  | Error e => (Error e, st)
  | Ok mswave =>
  let st := say (Info "   Summing object counts") st in
  let st := say (Info "   Summing variance array") st in
  match pyindex (_bpix slf) (det - 1) with
  | Error e => (Error e, st)
  | Ok bpix =>
  match getitem mask_flags "bad_pix" with
  | Error e => (Error e, st)
  | Ok flag_bp =>
  match getitem mask_flags "CR" with
  | Error e => (Error e, st)
  | Ok flag_cr =>
  let s := boxcar_sums mswave bpix sciframe varframe skyframe cr_mask scitrace
             flag_bp flag_cr o in
  let bgcorr := update_bgcorr scitrace o (s_bgframe s) bgcorr in
  let NANs := vmap isnan (s_scisum s) in
  let nan_handled : result sums * pass :=
    if any_true NANs then
      let st := say (Warn "   NANs in the spectrum somehow..") st in
      match getitem mask_flags "NANs" with
      | Error e => (Error e, st)
      | Ok flag_nan =>
          (Ok {| s_bgframe := s_bgframe s;
                  s_wvsum := s_wvsum s;
                  s_skysum := zero_where NANs (s_skysum s);
                  s_scisum := zero_where NANs (s_scisum s);
                  s_varsum := zero_where NANs (s_varsum s);
                  s_boxmask := add_flag NANs flag_nan (s_boxmask s) |}, st)
      end
    else (Ok s, st) in
  match nan_handled with
  | (Error e, st) => (Error e, st)
  | (Ok s, st) =>
  match specobjs st !! fin_to_nat o with
  | None => (Error IndexError, st)
  | Some so =>
      if negb (check_trace so (slice2 (traces scitrace) o)) then
        let st := say SetTrace st in
        (Error (FatalError "Bad match to specobj in boxcar!"), st)
      else
        let so := fill so (s_wvsum s) (s_scisum s) (s_varsum s) (s_skysum s)
                       (s_boxmask s) in
        (Ok bgcorr,
         {| specobjs := <[fin_to_nat o := so]> (specobjs st); plog := plog st |})
  end end end end end end.

(** The loop on objects. *)
Fixpoint boxcar_loop (body : fin nobj -> image * pass -> result image * pass)
    (objs : list (fin nobj)) (acc : image * pass) : result image * pass :=
  match objs with
  | [] => (Ok acc.1, acc.2)
  | o :: rest =>
      match body o acc with
      | (Ok bgcorr, st) => boxcar_loop body rest (bgcorr, st)
      | stop => stop
      end
  end.

(** [boxcar(slf, det, specobjs, sciframe, varframe, skyframe, crmask,
    scitrace)]: the value returned, [bgcorr], or the exception raised,
    with the state left behind. The wavelengths are kept without their
    unit. *)
Definition boxcar (slf : Slf) (det : Z) (sciframe varframe skyframe : image)
    (crmask : vec (vec Z nx) ny) (scitrace : Scitrace) (st : pass)
  : result image * pass :=
  let cr_mask := vmap (vmap (fun c => fsub fone (of_Z c))) crmask in
  let bgcorr := vmap (vmap (fun _ : float => fzero)) cr_mask in
  boxcar_loop (boxcar_object slf det sciframe varframe skyframe cr_mask scitrace)
              (fin_enum nobj) (bgcorr, st).

End Extraction.

(* ================================================================= *)
(** ** Setting up the science exposures: [SetupScience] *)

(** ['{:02d}'.format(z)]. *)
Definition format_02d (z : Z) : string :=
  let s := pretty z in
  if (String.length s <? 2)%nat then "0" +:+ s else s.

(** [sep.join(l)]. *)
Fixpoint join (sep : string) (l : list string) : string :=
  match l with
  | [] => ""
  | [x] => x
  | x :: rest => x +:+ sep +:+ join sep rest
  end.

(** [s.replace(old, new)] for a non-empty [old]; [skip] counts the
    characters of a match still to be dropped. *)
Fixpoint replace_from (old new : string) (skip : nat) (s : string) : string :=
  match s with
  | EmptyString => EmptyString
  | String c rest =>
      match skip with
      | S k => replace_from old new k rest
      | O =>
          if String.prefix old s
          then new +:+ replace_from old new (String.length old - 1) rest
          else String c (replace_from old new 0 rest)
      end
  end.

Definition replace (old new s : string) : string := replace_from old new 0 s.

(** The columns of [fitsdict] that [SetupScience] reads. *)
Record Fitsdict := {
  filename : list string;
  target : list string
}.

(** The settings read: [argflag['run']['calcheck']],
    [argflag['reduce']['setup']], [argflag['output']['sorted']],
    [argflag['run']['redname']], [spect['mosaic']['ndet']] and, for each
    frame type, [spect[key]['index']]. *)
Record Settings := {
  run_calcheck : bool;
  reduce_setup : option (list string);
  output_sorted : option string;
  run_redname : string;
  mosaic_ndet : nat;
  spect_index : gmap string (list (list Z))
}.

(** One group of [group_dict]: for each key the list of names. *)
Abbreviation group := (gmap string (list string)).

(** [key in ['unknown', 'dark']]. *)
Definition skipped_key (key : string) : bool :=
  String.eqb key "unknown" || String.eqb key "dark".

(** Lines 93-98: a new group, given [filesort.keys()]. *)
Definition init_group (keys : list string) : group :=
  fold_left (fun (g : group) key =>
               let g := if skipped_key key then g else <[key := []]> g in
               let g := <["sciobj" := []]> g in
               <["stdobj" := []]> g)
            keys ∅.

(** [d[k].append(x)]: the list [d[k]] is looked up before [x] is
    evaluated. *)
Definition append_to (g : group) (k : string) (x : result string) : result group :=
  l ← getitem g k; v ← x; Ok (<[k := l ++ [v]]> g).

(** Lines 108-114: the body of the loop on the frames [idx] of one type. *)
Definition add_frame (fitsdict : Fitsdict) (key : string) (scidx : Z)
    (g : group) (idx : Z) : result group :=
  fname ← pyindex (filename fitsdict) idx;
  names ← getitem g key;
  g ← (if bool_decide (fname ∈ names) then Ok g
       else
         g ← append_to g key (pyindex (filename fitsdict) idx);
         if String.eqb key "standard"
         then append_to g "stdobj" (pyindex (target fitsdict) idx)
         else Ok g);
  if String.eqb key "science"
  then append_to g "sciobj" (pyindex (target fitsdict) scidx)
  else Ok g.

(** A [for] loop whose body may raise. *)
Fixpoint for_result {A S} (body : S -> A -> result S) (l : list A) (s : S)
  : result S :=
  match l with
  | [] => Ok s
  | x :: rest => s' ← body s x; for_result body rest s'
  end.

(** Lines 107-114: the loop on [settings.spect[key]['index'][sc]]. *)
Definition add_frames (fitsdict : Fitsdict) (key : string) (scidx : Z)
    (idxs : list Z) (g : group) : result group :=
  for_result (add_frame fitsdict key scidx) idxs g.

(** Lines 104-114: the loop on [filesort.keys()] for the exposure [sc]. *)
Definition fill_group (settings : Settings) (fitsdict : Fitsdict)
    (keys : list string) (sc : nat) (scidx : Z) (g : group) : result group :=
  for_result (fun g key =>
                if skipped_key key then Ok g
                else
                  spect_key ← getitem (spect_index settings) key;
                  idxs ← pyindex spect_key (Z.of_nat sc);
                  add_frames fitsdict key scidx idxs g)
             keys g.

Section SetupScience.

(** The collaborators of [arsort] and [arsciexp], kept as parameters: the
    setup dictionary and [arsort.instr_setup], which
    returns the setup of a frame and records it in the dictionary;
    [arsort.get_setup_file], [arsort.load_setup] and [arsort.sort_data];
    the constructor of [arsciexp.ScienceExposure]; and [int] on strings. *)
Context {SetupDict : Type}.
Variable empty_setup : SetupDict.
Variable instr_setup : Z -> Z -> Fitsdict -> SetupDict -> string * SetupDict.
Variable get_setup_file : string * Z.
Variable load_setup : SetupDict.
Variable sort_data : Fitsdict -> bool -> list (string * list Z).
Variable new_ScienceExposure : nat -> Fitsdict -> bool -> ScienceExposure.
Variable int_of_string : string -> option Z.

(** What [SetupScience] does to the outside, in order. *)
Inductive event :=
| Log (m : msg)
| SortWrite
| MatchScience
| MakeDirs
| NewScienceExposure (i : nat)
| WriteSetup (d : SetupDict)
| WriteFile (name : string) (groups : gmap string group).

(** Computations that log, call out and may raise. *)
Definition run (A : Type) : Type := list event -> result A * list event.

Definition done_with {A} (a : A) : run A := fun tr => (Ok a, tr).

Definition and_then {A B} (m : run A) (k : A -> run B) : run B :=
  fun tr => match m tr with
            | (Ok a, tr') => k a tr'
            | (Error e, tr') => (Error e, tr')
            end.

Definition raise {A} (e : exn) : run A := fun tr => (Error e, tr).

Definition tell (ev : event) : run unit := fun tr => (Ok tt, tr ++ [ev]).

Definition lift {A} (r : result A) : run A := fun tr => (r, tr).

Notation "'do' x <- m ; k" := (and_then m (fun x => k))
  (at level 10, x name, m at level 100, k at level 200).
Notation "m ;; k" := (and_then m (fun _ => k))
  (at level 100, k at level 200, right associativity).

(** Modelled from the spec: [msgs.error] of [armsgs.py], a fatal error that
    carries its message and ends the run. *)
Definition msgs_error {A} (s : string) : run A := raise (FatalError s).

Fixpoint for_run {A S} (body : S -> A -> run S) (l : list A) (s : S) : run S :=
  match l with
  | [] => done_with s
  | x :: rest => do s' <- body s x; for_run body rest s'
  end.

(** Lines 67-76: the exposures kept, their science indices, and the prior
    setup dictionary, which is bound only when a setup file exists. *)
Definition select_science (settings : Settings) (fitsdict : Fitsdict) (do_qa : bool)
    (acc : list ScienceExposure * list nat * option SetupDict) (i : nat)
  : run (list ScienceExposure * list nat * option SetupDict) :=
  let '(sciexp, scii, prev) := acc in
  do add_prev <-
    match reduce_setup settings with
    | None => done_with (true, prev)
    | Some wanted =>
        match prev with
        | None => raise UnboundLocalError
        | Some prev_setup_dict =>
            let '(setup, prev_setup_dict) :=
              instr_setup (Z.of_nat i) 1 fitsdict prev_setup_dict in
            if bool_decide (setup ∈ wanted) then done_with (true, Some prev_setup_dict)
            else
              tell (Log (Info ("Skipping science frame with setup=" +:+ setup)));;
              done_with (false, Some prev_setup_dict)
        end
    end;
  let '(add, prev) := add_prev in
  if add : bool then
    tell (NewScienceExposure i);;
    done_with (sciexp ++ [new_ScienceExposure i fitsdict do_qa], scii ++ [i], prev)
  else done_with (sciexp, scii, prev).

(** Lines 82-114: the body of the loop on the exposures kept. *)
Definition group_exposure (settings : Settings) (fitsdict : Fitsdict)
    (keys : list string) (sciexp : list ScienceExposure) (scii : list nat)
    (acc : SetupDict * gmap string group) (sc : nat)
  : run (SetupDict * gmap string group) :=
  let '(setup_dict, group_dict) := acc in
  do e <- lift (pyindex sciexp (Z.of_nat sc));
  do scidx <- lift (pyindex (_idx_sci e) 0);
  do i <- lift (pyindex scii (Z.of_nat sc));
  let '(setup, setup_dict) := instr_setup (Z.of_nat i) 1 fitsdict setup_dict in
  tell (Log (Info ("setup=" +:+ setup)));;
  do setup_val <-
    for_run (fun vals i =>
               match int_of_string setup with
               | None => raise ValueError
               | Some z => done_with (vals ++ [format_02d (z + Z.of_nat i)])
               end)
            (seq 0 (mosaic_ndet settings)) [];
  let group_key := join "_" setup_val in
  let group_dict :=
    match group_dict !! group_key with
    | Some _ => group_dict
    | None => <[group_key := init_group keys]> group_dict
    end in
  for_run (fun (acc : SetupDict * gmap string group) kk =>
             let '(setup_dict, group_dict) := acc in
             let '(_, setup_dict) :=
               instr_setup (Z.of_nat sc) (Z.of_nat kk + 1) fitsdict setup_dict in
             if (kk =? 0)%nat then
               do g <- lift (getitem group_dict group_key);
               do g <- lift (fill_group settings fitsdict keys sc scidx g);
               done_with (setup_dict, <[group_key := g]> group_dict)
             else done_with (setup_dict, group_dict))
          (seq 0 (mosaic_ndet settings)) (setup_dict, group_dict).

(** [SetupScience(fitsdict)]: the list [sciexp] returned, or the exception
    raised ([SystemExit] for [sys.exit()]), with what has been done to the
    outside. *)
Definition SetupScience (settings : Settings) (fitsdict : Fitsdict)
  : run (list ScienceExposure) :=
  let do_qa := negb (run_calcheck settings) in
  let bad_to_unknown := run_calcheck settings in
  let '(setup_file, nexist) := get_setup_file in
  let prev_setup_dict := if (nexist =? 1)%Z then Some load_setup else None in
  match reduce_setup settings with
  | Some _ =>
      if (nexist =? 0)%Z
      then msgs_error "No .setup file provided.  Cannot use 'reduce setup' in Settings file"
      else done_with tt
  | None => done_with tt
  end;;
  tell (Log (Bug ("Files and folders should not be deleted -- there should be an option to "
                  +:+ "overwrite files automatically if they already exist, or choose to "
                  +:+ "rename them if necessary")));;
  let filesort := sort_data fitsdict bad_to_unknown in
  match output_sorted settings with
  | Some _ => tell SortWrite
  | None => done_with tt
  end;;
  tell MatchScience;;
  (if do_qa then tell MakeDirs else done_with tt);;
  do science <-
    match list_find (fun kv : string * list Z => kv.1 = "science") filesort with
    | Some (_, kv) => done_with kv.2
    | None => raise (KeyError "science")
    end;
  let numsci := length science in
  do selected <-
    for_run (select_science settings fitsdict do_qa) (seq 0 numsci)
            ([], [], prev_setup_dict);
  let '(sciexp, scii, _) := selected in
  let numsci := length sciexp in
  do dicts <-
    for_run (group_exposure settings fitsdict filesort.*1 sciexp scii) (seq 0 numsci)
            (empty_setup, ∅);
  let '(setup_dict, group_dict) := dicts in
  (if (nexist =? 0)%Z then tell (WriteSetup setup_dict) else done_with tt);;
  let group_file := replace ".pypit" ".group" (run_redname settings) in
  tell (WriteFile group_file group_dict);;
  if run_calcheck settings then
    tell (Log (Info ("Calibration check complete. Change the 'calcheck' flag to "
                     +:+ "continue with data reduction")));;
    tell (Log (Info ("Inspect the setup file: " +:+ setup_file)));;
    tell (Log (Info ("Inspect the group file: " +:+ group_file)));;
    raise SystemExit
  else done_with sciexp.

End SetupScience.

(** *** What a copy loop leaves behind

    [received lo hi chkarr field totype det m j e] is the exposure [e] of
    index [j] after a loop over [range(lo, hi)] that copies the frame [m]. *)
Definition received (lo hi : nat) (chkarr : list Z)
    (field : ScienceExposure -> list Z) (totype : string) (det : Z)
    (m : MasterFrame) (j : nat) (e : ScienceExposure) : ScienceExposure :=
  if bool_decide (lo <= j < hi)%nat
     && array_equal chkarr (field e)
     && bool_decide (GetMasterFrame_nocopy e totype det = None)
  then SetMasterFrame e m totype det
  else e.

(** [keeps w w']: every exposure of [w] is still there in [w'], and every
    master frame it had is present, and the same, in [w']. *)
Definition keeps (w w' : world) : Prop :=
  forall i e,
    sciexp w !! i = Some e ->
    exists e', sciexp w' !! i = Some e'
               /\ forall k f, masters e !! k = Some f -> masters e' !! k = Some f.

(** The calibration types the loops of [UpdateMasters] recognise:
    [calib ftype chktype field slot] gives, for the arguments [ftype] and
    [chktype], the index array compared and the slot written. *)
Inductive calib :
  option string -> option string -> (ScienceExposure -> list Z) -> string -> Prop :=
| calib_arc chktype : calib (Some "arc") chktype _idx_arcs "arc"
| calib_bias chktype : calib (Some "bias") chktype _idx_bias "bias"
| calib_standard chktype : calib (Some "standard") chktype _idx_std "standard"
| calib_trace : calib (Some "flat") (Some "trace") _idx_trace "trace"
| calib_pixelflat : calib (Some "flat") (Some "pixelflat") _idx_flat "pixelflat".

(** The two subtypes of a flat: [flat_pair s fs o fo] when [o] is the other
    subtype of [s], with their index arrays. *)
Inductive flat_pair :
  string -> (ScienceExposure -> list Z) -> string -> (ScienceExposure -> list Z) -> Prop :=
| flat_trace : flat_pair "trace" _idx_trace "pixelflat" _idx_flat
| flat_pixelflat : flat_pair "pixelflat" _idx_flat "trace" _idx_trace.

(** *** Exposure lists used as examples *)

Definition frame1 : MasterFrame := [[fone; fzero]; [fzero; fone]].

Definition exposure (arcs rn trace flat : list Z)
    (m : gmap (string * Z) MasterFrame) : ScienceExposure :=
  {| _idx_sci := [0%Z]; _idx_arcs := arcs; _idx_bias := []; _idx_rn := rn;
     _idx_trace := trace; _idx_flat := flat; _idx_std := []; masters := m |}.

(** Three exposures built from the arcs 1 and 2; the second lists them in
    the other order. Only the first has its arc master. *)
Definition arcs_permuted : world :=
  {| sciexp := [exposure [1; 2]%Z [] [] [] {[ ("arc", 1%Z) := frame1 ]};
                exposure [2; 1]%Z [] [] [] ∅;
                exposure [1; 2]%Z [] [] [] ∅];
     log := [] |}.

(** Two exposures traced from the flats 4 and 5, which the second also uses
    as pixel flats; the first has its trace master. *)
Definition shared_flats : world :=
  {| sciexp := [exposure [] [] [4; 5]%Z [7]%Z {[ ("trace", 1%Z) := frame1 ]};
                exposure [] [] [8]%Z [4; 5]%Z ∅];
     log := [] |}.

(** Two exposures: the first is traced from the flats 4 and 5 and has its
    trace master; the second lists the same two frames as its pixel flats,
    in the other order. *)
Definition flats_permuted : world :=
  {| sciexp := [exposure [] [] [4; 5]%Z [7]%Z {[ ("trace", 1%Z) := frame1 ]};
                exposure [] [] [8]%Z [5; 4]%Z ∅];
     log := [] |}.

(** A single exposure with its read-noise frames. *)
Definition single_exposure : world :=
  {| sciexp := [exposure [] [3]%Z [] [] {[ ("readnoise", 1%Z) := frame1 ]}];
     log := [] |}.

(** *** Frames used as examples *)

(** A background fit that finds no background. *)
Definition zero_fit {ny nx} (bgfit : vec float nx) (sciframe weights : vec (vec float nx) ny)
    (order : Z) : vec (vec float nx) ny :=
  vmap (vmap (fun _ : float => fzero)) sciframe.

(** A [SpecObj] not yet extracted, whose trace always matches. *)
Definition fresh_specobj {ny} : @SpecObj ny :=
  {| check_trace := fun _ => true; boxcar_wave := None; boxcar_counts := None;
     boxcar_var := None; boxcar_sky := None; boxcar_mask := None |}.

(** Two rows of two pixels and one object, whose aperture covers the first
    row and leaves the second row empty. *)
Definition upper_row_trace : @Scitrace 2 2 1 :=
  {| traces := [# [# fone]; [# fone] ];
     object := [# [# [# fone]; [# fone] ]; [# [# fzero]; [# fzero] ] ];
     background := [# [# [# fzero]; [# fzero] ]; [# [# fzero]; [# fzero] ] ] |}.

(** One pixel per row, both rows in the aperture of the one object. *)
Definition both_rows_trace : @Scitrace 2 1 1 :=
  {| traces := [# [# fone]; [# fone] ];
     object := [# [# [# fone] ]; [# [# fone] ] ];
     background := [# [# [# fzero] ]; [# [# fzero] ] ] |}.

Definition flat_image {ny nx} (v : float) : vec (vec float nx) ny :=
  vreplicate ny (vreplicate nx v).

(** One detector, wavelength 2 everywhere and no bad pixel. *)
Definition one_detector {ny nx} : @Slf ny nx :=
  {| _mswave := [flat_image (of_Z 2)]; _bpix := [flat_image fzero] |}.

Definition fresh_pass {ny} : @pass ny :=
  {| specobjs := [fresh_specobj]; plog := [] |}.

(** The boxcar pass on a frame of constant value 2 with no cosmic ray,
    the aperture on the first row only. *)
Definition empty_row_run : result (vec (vec float 2) 2) * @pass 2 :=
  boxcar zero_fit one_detector 1 (flat_image (of_Z 2)) (flat_image (of_Z 2))
         (flat_image (of_Z 2)) [# [# 0; 0]; [# 0; 0] ]%Z upper_row_trace fresh_pass.

(** The boxcar pass on two rows of one pixel; the pixel of the second row
    is flagged as a cosmic ray, the pixel of the first row is not. *)
Definition cosmic_ray_run : result (vec (vec float 1) 2) * @pass 2 :=
  boxcar zero_fit one_detector 1 (flat_image (of_Z 2)) (flat_image (of_Z 2))
         (flat_image (of_Z 2)) [# [# 0]; [# 1] ]%Z both_rows_trace fresh_pass.

(** A background fit that gives, at each pixel, the science value times
    the weight of the pixel. *)
Definition weighted_fit {ny nx} (bgfit : vec float nx)
    (sciframe weights : vec (vec float nx) ny) (order : Z) : vec (vec float nx) ny :=
  vzip_with (vzip_with fmul) sciframe weights.

(** One row of three pixels and two objects. The first pixel is in the
    aperture of the first object, the second pixel in the aperture of the
    second object and in the background region of both, the third pixel in
    no region; the background weights are 3 at the first pixel for the
    first object, and 1 and 2 at the second pixel. *)
Definition two_objects_trace : @Scitrace 1 3 2 :=
  {| traces := [# [# fone; fone] ];
     object := [# [# [# fone; fzero]; [# fzero; fone]; [# fzero; fzero] ] ];
     background := [# [# [# of_Z 3; fzero]; [# fone; of_Z 2]; [# fzero; fzero] ] ] |}.

(** The boxcar pass on these two objects, over a frame of constant value 2
    with no cosmic ray. *)
Definition two_objects_run : result (vec (vec float 3) 1) * @pass 1 :=
  boxcar weighted_fit one_detector 1 (flat_image (of_Z 2)) (flat_image (of_Z 2))
         (flat_image (of_Z 2)) [# [# 0; 0; 0] ]%Z two_objects_trace
         {| specobjs := [fresh_specobj; fresh_specobj]; plog := [] |}.

(** One row of eight pixels, all in the aperture of the one object. *)
Definition eight_pixel_trace : @Scitrace 1 8 1 :=
  {| traces := [# [# fone] ];
     object := [# vreplicate 8 [# fone] ];
     background := [# vreplicate 8 [# fzero] ] |}.

(** A row of eight finite values: two of 1e308, two of -1e308 and four
    zeros. *)
Definition overflow_row : vec float 8 :=
  [# of_Z (10 ^ 308); of_Z (10 ^ 308); of_Z (- 10 ^ 308); of_Z (- 10 ^ 308);
     fzero; fzero; fzero; fzero ].

(** [a[r, x]] and [c[r, x, o]]. *)
Definition pixel {A ny nx} (a : vec (vec A nx) ny) (r : fin ny) (x : fin nx) : A :=
  (a !!! r) !!! x.

Definition voxel {A ny nx nobj} (c : vec (vec (vec A nobj) nx) ny)
    (r : fin ny) (x : fin nx) (o : fin nobj) : A :=
  ((c !!! r) !!! x) !!! o.

(** A float that is neither infinite nor NaN, and a zero of either sign. *)
Definition is_finite (x : float) : Prop :=
  match x with
  | S754_zero _ | S754_finite _ _ _ => True
  | _ => False
  end.

Definition is_zero (x : float) : Prop :=
  match x with
  | S754_zero _ => True
  | _ => False
  end.

(** *** The group lists, as the loop on frames leaves them *)

(** The file name and the target of a frame (empty when the frame is out
    of range, where the code raises). *)
Definition name_of (fitsdict : Fitsdict) (idx : Z) : string :=
  match pyindex (filename fitsdict) idx with Ok s => s | Error _ => "" end.

Definition target_of (fitsdict : Fitsdict) (idx : Z) : string :=
  match pyindex (target fitsdict) idx with Ok s => s | Error _ => "" end.

(** The frames of [idxs] whose file name is new: not in [seen], and not
    met earlier in [idxs]. *)
Fixpoint new_frames (fitsdict : Fitsdict) (seen : list string) (idxs : list Z)
  : list Z :=
  match idxs with
  | [] => []
  | idx :: rest =>
      if bool_decide (name_of fitsdict idx ∈ seen) then new_frames fitsdict seen rest
      else idx :: new_frames fitsdict (seen ++ [name_of fitsdict idx]) rest
  end.

(** *** A run of [SetupScience] used as example *)

(** Two science frames, one standard star and one arc. *)
Definition four_frames : Fitsdict :=
  {| filename := ["sci1.fits"; "sci2.fits"; "std.fits"; "arc.fits"];
     target := ["NGC1"; "NGC2"; "Feige34"; "ThAr"] |}.

(** Both science exposures are matched to the same standard and arc. *)
Definition two_science_settings : Settings :=
  {| run_calcheck := false; reduce_setup := None; output_sorted := None;
     run_redname := "run.pypit"; mosaic_ndet := 1;
     spect_index := {[ "science" := [[0]; [1]]%Z;
                       "standard" := [[2]; [2]]%Z;
                       "arc" := [[3]; [3]]%Z ]} |}.

Definition science_exposure (i : nat) (fitsdict : Fitsdict) (do_qa : bool)
  : ScienceExposure :=
  {| _idx_sci := [Z.of_nat i]; _idx_arcs := [3%Z]; _idx_bias := []; _idx_rn := [];
     _idx_trace := []; _idx_flat := []; _idx_std := [2%Z]; masters := ∅ |}.

Definition decimal (s : string) : option Z :=
  Z.of_int <$> NilZero.int_of_string s.

(** Every frame has the setup ["01"]; no setup file exists. *)
Definition two_science_run : result (list ScienceExposure) * list (@event unit) :=
  SetupScience tt (fun _ _ _ d => ("01", d)) ("run.setup", 0%Z) tt
    (fun _ _ => [("science", [0; 1]%Z); ("standard", [2]%Z); ("arc", [3]%Z);
                 ("dark", [])])
    science_exposure decimal two_science_settings four_frames [].

(** The group dictionary written to the group file. *)
Definition written_groups {SetupDict} (tr : list (@event SetupDict))
  : option (gmap string group) :=
  snd <$> list_find (fun _ => True)
            (omap (fun ev => match ev with WriteFile _ g => Some g | _ => None end) tr).

(** The list under [key] in the group [group_key] of the group file. *)
Definition written_list {SetupDict} (tr : list (@event SetupDict))
    (group_key key : string) : option (list string) :=
  match written_groups tr with
  | Some groups =>
      match groups !! group_key with
      | Some g => g !! key
      | None => None
      end
  | None => None
  end.

(** A group in which one standard has been listed already, and the group
    after the same standard is met again, with a second one. *)
Definition one_standard_group : group :=
  {[ "standard" := ["std.fits"]; "stdobj" := ["Feige34"]; "sciobj" := ["NGC1"] ]}.

Definition six_frames : Fitsdict :=
  {| filename := ["sci1.fits"; "sci2.fits"; "std.fits"; "arc.fits"; "std2.fits"; "std2.fits"];
     target := ["NGC1"; "NGC2"; "Feige34"; "ThAr"; "GD71"; "GD71"] |}.

Definition two_standards_group : group :=
  match add_frames six_frames "standard" 1 [2; 4; 5]%Z one_standard_group with
  | Ok g => g
  | Error _ => ∅
  end.

(** *** The writes of a propagation call

    [may_write sc ftype chktype i totype]: the loops of [UpdateMasters] can
    reach the statement that sets the slot [totype] of the exposure [i]. *)
Definition may_write (sc : nat) (ftype chktype : option string) (i : nat)
    (totype : string) : Prop :=
  (totype ∈ ["arc"; "bias"; "standard"] /\ ftype = Some totype /\ (sc < i)%nat)
  \/ (ftype = Some "flat"
      /\ exists s, chktype = Some s /\ s ∈ ["trace"; "pixelflat"]
           /\ ((totype = s /\ (sc < i)%nat)
               \/ (totype = other_subtype s /\ (sc <= i)%nat))).

(** [writes sc det ftype chktype w w']: [w'] comes from [w] by logging and
    by setting empty slots that the call may write. *)
Inductive writes (sc : nat) (det : Z) (ftype chktype : option string) (w : world)
  : world -> Prop :=
| writes_none : writes sc det ftype chktype w w
| writes_emit w1 m :
    writes sc det ftype chktype w w1 ->
    writes sc det ftype chktype w (emit m w1)
| writes_copy w1 i ei frame totype :
    writes sc det ftype chktype w w1 ->
    sciexp w1 !! i = Some ei ->
    may_write sc ftype chktype i totype ->
    GetMasterFrame_nocopy ei totype det = None ->
    writes sc det ftype chktype w (set_exposure i (SetMasterFrame ei frame totype det) w1).

(** The index arrays of two exposures are the same. *)
Definition same_indices (e e' : ScienceExposure) : Prop :=
  _idx_sci e' = _idx_sci e /\ _idx_arcs e' = _idx_arcs e /\ _idx_bias e' = _idx_bias e
  /\ _idx_rn e' = _idx_rn e /\ _idx_trace e' = _idx_trace e
  /\ _idx_flat e' = _idx_flat e /\ _idx_std e' = _idx_std e.

(** *** What a boxcar pass computes for an object *)

Section BoxcarSpec.

Context {ny nx nobj : nat}.
Variable fit : vec float nx -> vec (vec float nx) ny -> vec (vec float nx) ny -> Z
               -> vec (vec float nx) ny.

(** The background fitted for the object [o] (line 59). *)
Definition bgframe_of (sciframe cr_mask : vec (vec float nx) ny)
    (scitrace : @Scitrace ny nx nobj) (o : fin nobj) : vec (vec float nx) ny :=
  fit (linspace01 nx) sciframe (img2 fmul (slice3 (background scitrace) o) cr_mask) 1%Z.

(** The pixel [(r, x)] lies in the aperture or in the background region of
    the object [o]: [background + object > 0] there (lines 76-77). *)
Definition covers (scitrace : @Scitrace ny nx nobj) (r : fin ny) (x : fin nx)
    (o : fin nobj) : bool :=
  fgt (fadd (voxel (background scitrace) r x o) (voxel (object scitrace) r x o)) fzero.

End BoxcarSpec.

(** [1.0 - crmask]. *)
Definition good_pixels {ny nx} (crmask : vec (vec Z nx) ny) : vec (vec float nx) ny :=
  vmap (vmap (fun c => fsub fone (of_Z c))) crmask.


(** *** What a run of [SetupScience] may do to the outside *)

(** [emits P m]: whatever the trace so far and however [m] ends, [m] only
    adds events to the trace, and each of them satisfies [P]. *)
Definition emits {SetupDict A} (P : @event SetupDict -> Prop) (m : @run SetupDict A)
  : Prop :=
  forall tr r tr', m tr = (r, tr') -> exists evs, tr' = tr ++ evs /\ Forall P evs.

(** The conditions under which [SetupScience] makes the directories, writes
    the sorted-file list and writes the setup file. *)
Definition allowed_event {SetupDict} (settings : Settings) (nexist : Z)
    (ev : @event SetupDict) : Prop :=
  match ev with
  | MakeDirs => run_calcheck settings = false
  | SortWrite => output_sorted settings <> None
  | WriteSetup _ => nexist = 0%Z
  | _ => True
  end.

(** The events of the loop on science frames: messages and constructions
    only. *)
Definition quiet {SetupDict} (ev : @event SetupDict) : Prop :=
  match ev with
  | Log _ | NewScienceExposure _ => True
  | _ => False
  end.

(** Any event but the construction of an exposure. *)
Definition no_construction {SetupDict} (ev : @event SetupDict) : Prop :=
  match ev with
  | NewScienceExposure _ => False
  | _ => True
  end.

(** The science frames for which an exposure was constructed, in order. *)
Definition constructed {SetupDict} (evs : list (@event SetupDict)) : list nat :=
  omap (fun ev => match ev with NewScienceExposure i => Some i | _ => None end) evs.

(** [filesort['science']]. *)
Definition science_frames (filesort : list (string * list Z)) : option (list Z) :=
  (fun kv : nat * (string * list Z) => kv.2.2)
    <$> list_find (fun kv : string * list Z => kv.1 = "science") filesort.

(** [grows g g']: the group [g'] has the keys of [g], and under each key
    the list of [g] followed by what was appended. *)
Definition grows (g g' : group) : Prop :=
  dom g' = dom g
  /\ forall k l, g !! k = Some l -> exists l', g' !! k = Some (l ++ l').

(** [g'] grows from [g] and keeps the lists of the types that are
    skipped. *)
Definition unchanged_skipped (g g' : group) : Prop :=
  grows g g'
  /\ forall k, skipped_key k = true -> k <> "stdobj" -> k <> "sciobj" ->
       g' !! k = g !! k.

(* ================================================================= *)
(** * Properties *)

(** ** Master-frame propagation *)

Section UpdateMastersFacts.

Implicit Types (w : world) (e : ScienceExposure) (m : MasterFrame).

Lemma keeps_refl w : keeps w w.
Proof. intros i e Hi. eauto. Qed.

Lemma keeps_trans w1 w2 w3 : keeps w1 w2 -> keeps w2 w3 -> keeps w1 w3.
Proof.
  intros H12 H23 i e Hi.
  destruct (H12 _ _ Hi) as (e2 & Hi2 & Hk2).
  destruct (H23 _ _ Hi2) as (e3 & Hi3 & Hk3).
  exists e3. split; [exact Hi3|]. auto.
Qed.

Lemma keeps_emit w msg0 : keeps w (emit msg0 w).
Proof. intros i e Hi. simpl. eauto. Qed.

(** The guarded copy never touches a slot that is set. *)
Lemma copy_master_keeps sc det chkarr chkfarr fromtype totype numsci i w c w' :
  copy_master sc det chkarr chkfarr fromtype totype numsci i w = (c, w') ->
  keeps w w'.
Proof.
  unfold copy_master. intros H.
  destruct (sciexp w !! i) as [ei|] eqn:Hei; [|inversion H; subst; apply keeps_refl].
  destruct (array_equal chkarr chkfarr); simpl in H;
    [|inversion H; subst; apply keeps_refl].
  case_bool_decide as Hnone; simpl in H; [|inversion H; subst; apply keeps_refl].
  destruct (sciexp w !! sc) as [esc|];
    [|inversion H; subst; apply keeps_emit].
  destruct (GetMasterFrame esc fromtype det) as [frame|err];
    [|inversion H; subst; apply keeps_emit].
  inversion H; subst; clear H.
  intros j e Hj. simpl.
  destruct (decide (j = i)) as [->|Hne].
  - rewrite Hei in Hj. inversion Hj; subst e.
    exists (SetMasterFrame ei frame totype det). split.
    + apply list_lookup_insert_eq. eapply lookup_lt_Some; eauto.
    + intros k f Hk. simpl. rewrite lookup_insert_ne; [exact Hk|].
      intros <-. unfold GetMasterFrame_nocopy in Hnone. congruence.
  - exists e. split; [|auto].
    rewrite list_lookup_insert_ne; auto.
Qed.

Lemma copy_at_keeps sc det chkarr field fromtype totype numsci i w c w' :
  copy_at sc det chkarr field fromtype totype numsci i w = (c, w') ->
  keeps w w'.
Proof.
  unfold copy_at. destruct (sciexp w !! i).
  - apply copy_master_keeps.
  - intros H; inversion H; subst; apply keeps_refl.
Qed.

Lemma flat_body_keeps sc det ftype chkarr origtype chktype numsci i w c w' :
  flat_body sc det ftype chkarr origtype chktype numsci i w = (c, w') ->
  keeps w w'.
Proof.
  unfold flat_body.
  destruct (String.eqb chktype "trace"); [apply copy_at_keeps|].
  destruct (String.eqb chktype "pixelflat"); [apply copy_at_keeps|].
  intros H; inversion H; subst; apply keeps_emit.
Qed.

Lemma plain_body_keeps sc det ftype chkarr numsci i w c w' :
  plain_body sc det ftype chkarr numsci i w = (c, w') ->
  keeps w w'.
Proof.
  unfold plain_body.
  destruct (String.eqb ftype "arc"); [apply copy_at_keeps|].
  destruct (String.eqb ftype "bias"); [apply copy_at_keeps|].
  destruct (String.eqb ftype "standard"); [apply copy_at_keeps|].
  intros H; inversion H; subst; apply keeps_emit.
Qed.

Lemma for_each_keeps body :
  (forall i w c w', body i w = (c, w') -> keeps w w') ->
  forall idxs w c w', for_each idxs body w = (c, w') -> keeps w w'.
Proof.
  intros Hbody idxs. induction idxs as [|i rest IH]; intros w c w' H; simpl in H.
  - inversion H; subst; apply keeps_refl.
  - destruct (body i w) as [c1 w1] eqn:Hb.
    pose proof (Hbody _ _ _ _ Hb) as Hk.
    destruct c1.
    + eapply keeps_trans; [exact Hk|]. eapply IH; eauto.
    + inversion H; subst; exact Hk.
    + inversion H; subst; exact Hk.
Qed.

Lemma propagate_flat_keeps sc det ftype chktype chkarr w c w' :
  propagate_flat sc det ftype chktype chkarr w = (c, w') -> keeps w w'.
Proof.
  unfold propagate_flat.
  destruct (for_each _ _ w) as [c1 w1] eqn:H1.
  pose proof (for_each_keeps _ (flat_body_keeps _ _ _ _ _ _ _) _ _ _ _ H1) as K1.
  destruct c1; try (intros H; inversion H; subst; exact K1).
  destruct (for_each _ _ w1) as [c2 w2] eqn:H2.
  pose proof (for_each_keeps _ (flat_body_keeps _ _ _ _ _ _ _) _ _ _ _ H2) as K2.
  intros H. eapply keeps_trans; [exact K1|].
  destruct c2; inversion H; subst; exact K2.
Qed.

Lemma propagate_plain_keeps sc det ftype chkarr w c w' :
  propagate_plain sc det ftype chkarr w = (c, w') -> keeps w w'.
Proof.
  unfold propagate_plain.
  destruct (for_each _ _ w) as [c1 w1] eqn:H1.
  pose proof (for_each_keeps _ (plain_body_keeps _ _ _ _ _) _ _ _ _ H1) as K1.
  intros H. destruct c1; inversion H; subst; exact K1.
Qed.

Lemma bug_return_keeps text w c w' : bug_return text w = (c, w') -> keeps w w'.
Proof.
  unfold bug_return. destruct text; intros H; inversion H; subst;
    [apply keeps_emit|apply keeps_refl].
Qed.

Lemma UpdateMasters_keeps sc det ftype chktype w c w' :
  UpdateMasters sc det ftype chktype w = (c, w') -> keeps w w'.
Proof.
  unfold UpdateMasters.
  assert (Hat : forall (field : ScienceExposure -> list Z)
                       (loops : list Z -> world -> ctl * world),
    (forall chkarr, loops chkarr w = (c, w') -> keeps w w') ->
    match sciexp w !! sc with
    | Some esc => loops (field esc) w
    | None => (Raise IndexError, w)
    end = (c, w') -> keeps w w').
  { intros field loops Hloops. destruct (sciexp w !! sc).
    - apply Hloops.
    - intros H; inversion H; subst; apply keeps_refl. }
  repeat match goal with
  | |- context [if arg_is ?a ?b then _ else _] =>
      destruct (arg_is a b);
        [first [apply Hat; intros chkarr;
                first [apply propagate_plain_keeps | apply propagate_flat_keeps]
               | idtac]|]
  end; try apply bug_return_keeps.
  all: apply Hat; intros chkarr;
    first [apply propagate_plain_keeps | apply propagate_flat_keeps].
Qed.

Lemma for_each_ext body1 body2 :
  (forall i w, body1 i w = body2 i w) ->
  forall idxs w, for_each idxs body1 w = for_each idxs body2 w.
Proof.
  intros H idxs. induction idxs as [|i rest IH]; intros w; simpl; [reflexivity|].
  rewrite H. destruct (body2 i w) as [[| |] w1]; auto.
Qed.

(** *** The final state of a copy loop *)

Lemma received_outside lo hi chkarr field totype det m j e :
  ~ (lo <= j < hi)%nat -> received lo hi chkarr field totype det m j e = e.
Proof.
  intros H. unfold received. rewrite bool_decide_eq_false_2 by exact H. reflexivity.
Qed.

Lemma received_shift lo hi chkarr field totype det m j e :
  j <> lo ->
  received (S lo) hi chkarr field totype det m j e
  = received lo hi chkarr field totype det m j e.
Proof.
  intros H. unfold received.
  destruct (decide (lo <= j < hi)%nat) as [Hin|Hout].
  - rewrite (bool_decide_eq_true_2 (S lo <= j < hi)%nat) by lia.
    rewrite (bool_decide_eq_true_2 (lo <= j < hi)%nat) by lia. reflexivity.
  - rewrite (bool_decide_eq_false_2 (S lo <= j < hi)%nat) by lia.
    rewrite (bool_decide_eq_false_2 (lo <= j < hi)%nat) by lia. reflexivity.
Qed.

Lemma for_each_copy_at sc det chkarr field fromtype totype numsci m :
  forall len lo w esc,
    sciexp w !! sc = Some esc ->
    masters esc !! (fromtype, det) = Some m ->
    (lo + len <= length (sciexp w))%nat ->
    exists w',
      for_each (seq lo len) (copy_at sc det chkarr field fromtype totype numsci) w
      = (Next, w')
      /\ forall j, sciexp w' !! j
                   = received lo (lo + len) chkarr field totype det m j <$> sciexp w !! j.
Proof.
  induction len as [|len IH]; intros lo w esc Hsc Hm Hlen.
  - exists w. split; [reflexivity|]. intros j.
    destruct (sciexp w !! j) as [e|]; [|reflexivity].
    simpl. rewrite received_outside by lia. reflexivity.
  - destruct (lookup_lt_is_Some_2 (sciexp w) lo ltac:(lia)) as [elo Hlo].
    cbn [seq for_each]. unfold copy_at at 1. rewrite Hlo. unfold copy_master.
    rewrite Hlo.
    destruct (array_equal chkarr (field elo)
              && bool_decide (GetMasterFrame_nocopy elo totype det = None)) eqn:Hc.
    + cbn [emit sciexp]. rewrite Hsc. unfold GetMasterFrame. rewrite Hm.
      apply andb_true_iff in Hc as [Heq Hnone].
      apply bool_decide_eq_true in Hnone.
      set (w2 := set_exposure lo (SetMasterFrame elo m totype det)
                   (emit (info_update totype lo numsci) w)).
      assert (Hsc2 : exists esc2, sciexp w2 !! sc = Some esc2
                                  /\ masters esc2 !! (fromtype, det) = Some m).
      { destruct (decide (sc = lo)) as [->|Hne].
        - exists (SetMasterFrame elo m totype det). split.
          + apply list_lookup_insert_eq. simpl. lia.
          + assert (esc = elo) by congruence. subst esc. simpl.
            rewrite lookup_insert_ne; [exact Hm|].
            intros E. inversion E; subst. unfold GetMasterFrame_nocopy in Hnone.
            congruence.
        - exists esc. split; [|exact Hm].
          simpl. rewrite list_lookup_insert_ne by auto. exact Hsc. }
      destruct Hsc2 as (esc2 & Hsc2 & Hm2).
      destruct (IH (S lo) w2 esc2 Hsc2 Hm2) as (w' & Hrun & Hfin).
      { simpl. rewrite length_insert. lia. }
      exists w'. split; [exact Hrun|]. intros j. rewrite Hfin.
      replace (S lo + len)%nat with (lo + S len)%nat by lia. simpl.
      destruct (decide (j = lo)) as [->|Hne].
      * rewrite list_lookup_insert_eq by lia. rewrite Hlo. simpl. f_equal.
        rewrite received_outside by lia.
        unfold received. rewrite bool_decide_eq_true_2 by lia.
        rewrite Heq. rewrite bool_decide_eq_true_2 by exact Hnone. reflexivity.
      * rewrite list_lookup_insert_ne by auto.
        destruct (sciexp w !! j) as [e|]; [|reflexivity]. simpl. f_equal.
        apply received_shift; exact Hne.
    + destruct (IH (S lo) w esc Hsc Hm) as (w' & Hrun & Hfin); [lia|].
      exists w'. split; [exact Hrun|]. intros j. rewrite Hfin.
      replace (S lo + len)%nat with (lo + S len)%nat by lia.
      destruct (decide (j = lo)) as [->|Hne].
      * rewrite Hlo. simpl. f_equal.
        rewrite received_outside by lia.
        unfold received. rewrite bool_decide_eq_true_2 by lia.
        simpl. rewrite Hc. reflexivity.
      * destruct (sciexp w !! j) as [e|]; [|reflexivity]. simpl. f_equal.
        apply received_shift; exact Hne.
Qed.

Lemma received_cases lo hi chkarr field totype det m j e :
  received lo hi chkarr field totype det m j e = e
  \/ received lo hi chkarr field totype det m j e = SetMasterFrame e m totype det.
Proof. unfold received. destruct (_ && _); auto. Qed.

Lemma received_other_slot lo hi chkarr field totype det m j e k :
  k <> (totype, det) ->
  masters (received lo hi chkarr field totype det m j e) !! k = masters e !! k.
Proof.
  intros Hk. destruct (received_cases lo hi chkarr field totype det m j e) as [->| ->].
  - reflexivity.
  - simpl. apply lookup_insert_ne. congruence.
Qed.

Lemma received_slot lo hi chkarr field totype det m j e :
  masters (received lo hi chkarr field totype det m j e) !! (totype, det)
  = if bool_decide (lo <= j < hi)%nat && array_equal chkarr (field e)
       && bool_decide (masters e !! (totype, det) = None)
    then Some m else masters e !! (totype, det).
Proof.
  unfold received, GetMasterFrame_nocopy. destruct (_ && _).
  - simpl. apply lookup_insert_eq.
  - reflexivity.
Qed.

Lemma lookup_fmap_length {A} (f : nat -> A -> A) (l l' : list A) :
  (forall j, l' !! j = f j <$> l !! j) -> length l' = length l.
Proof.
  intros H. assert (l' = imap f l) as ->.
  { apply list_eq. intros j. rewrite H, list_lookup_imap. reflexivity. }
  apply length_imap.
Qed.

(** The call for one of the types [arc], [bias], [standard]. *)
Lemma UpdateMasters_plain ftype chktype field sc det w esc m :
  (ftype = "arc" /\ field = _idx_arcs) \/ (ftype = "bias" /\ field = _idx_bias)
  \/ (ftype = "standard" /\ field = _idx_std) ->
  sciexp w !! sc = Some esc ->
  masters esc !! (ftype, det) = Some m ->
  exists w',
    UpdateMasters sc det (Some ftype) chktype w = (Return, w')
    /\ forall j, sciexp w' !! j
                 = received (sc + 1) (length (sciexp w)) (field esc) field ftype det m j
                   <$> sciexp w !! j.
Proof.
  intros Hty Hsc Hm.
  pose proof (lookup_lt_Some _ _ _ Hsc) as Hlt.
  destruct (for_each_copy_at sc det (field esc) field ftype ftype (length (sciexp w)) m
              (length (sciexp w) - (sc + 1)) (sc + 1) w esc Hsc Hm ltac:(lia))
    as (w' & Hrun & Hfin).
  exists w'. split.
  - destruct Hty as [[-> ->]|[[-> ->]|[-> ->]]];
      unfold UpdateMasters; cbn [arg_is String.eqb Ascii.eqb Bool.eqb]; rewrite Hsc;
      unfold propagate_plain; unfold range;
      (erewrite for_each_ext; [rewrite Hrun; reflexivity|]);
      intros i w0; reflexivity.
  - intros j. rewrite Hfin. replace (sc + 1 + (length (sciexp w) - (sc + 1)))%nat
      with (length (sciexp w)) by lia. reflexivity.
Qed.

(** The call for a flat of subtype [s]: the loop over the same subtype,
    then the loop over the other subtype [o]. *)
Lemma UpdateMasters_flat s fs o fo sc det w esc m :
  flat_pair s fs o fo ->
  sciexp w !! sc = Some esc ->
  masters esc !! (s, det) = Some m ->
  exists w',
    UpdateMasters sc det (Some "flat") (Some s) w = (Return, w')
    /\ forall j, sciexp w' !! j
                 = (fun e => received sc (length (sciexp w)) (fs esc) fo o det m j
                               (received (sc + 1) (length (sciexp w)) (fs esc) fs s det m j e))
                   <$> sciexp w !! j.
Proof.
  intros Hpair Hsc Hm.
  pose proof (lookup_lt_Some _ _ _ Hsc) as Hlt.
  set (n := length (sciexp w)) in *.
  destruct (for_each_copy_at sc det (fs esc) fs s s n m
              (n - (sc + 1)) (sc + 1) w esc Hsc Hm ltac:(lia))
    as (w1 & Hrun1 & Hfin1).
  replace (sc + 1 + (n - (sc + 1)))%nat with n in Hfin1 by lia.
  pose proof (lookup_fmap_length _ _ _ Hfin1) as Hlen1.
  assert (Hsc1 : sciexp w1 !! sc = Some esc).
  { rewrite Hfin1, Hsc. simpl. rewrite received_outside by lia. reflexivity. }
  destruct (for_each_copy_at sc det (fs esc) fo s o n m
              (n - sc) sc w1 esc Hsc1 Hm ltac:(lia))
    as (w2 & Hrun2 & Hfin2).
  replace (sc + (n - sc))%nat with n in Hfin2 by lia.
  exists w2. split.
  - destruct Hpair;
      unfold UpdateMasters; cbn [arg_is String.eqb Ascii.eqb Bool.eqb]; rewrite Hsc;
      unfold propagate_flat; unfold range;
      fold n;
      (erewrite for_each_ext; [rewrite Hrun1|intros i w0; reflexivity]);
      unfold other_subtype; cbn [String.eqb Ascii.eqb Bool.eqb];
      (erewrite for_each_ext; [rewrite Hrun2; reflexivity|intros i w0; reflexivity]).
  - intros j. rewrite Hfin2, Hfin1. destruct (sciexp w !! j); reflexivity.
Qed.

(** *** The claims on [UpdateMasters] *)

(** C1, as stated, fails: the index arrays [[2; 1]] and [[1; 2]] are
    permutations of each other, yet after the arc master of the first
    exposure is propagated the exposure listing [[2; 1]] has no arc master,
    while the one listing [[1; 2]] has received it. *)
Lemma C1_permuted_arcs_not_shared :
  [2; 1]%Z ≡ₚ [1; 2]%Z
  /\ (UpdateMasters 0 1 (Some "arc") None arcs_permuted).1 = Return
  /\ (fun e => GetMasterFrame_nocopy e "arc" 1)
       <$> sciexp (UpdateMasters 0 1 (Some "arc") None arcs_permuted).2 !! 1%nat
     = Some None
  /\ (fun e => GetMasterFrame_nocopy e "arc" 1)
       <$> sciexp (UpdateMasters 0 1 (Some "arc") None arcs_permuted).2 !! 2%nat
     = Some (Some frame1).
Proof.
  split; [apply Permutation_swap|]. vm_compute. auto.
Qed.

(** C1, amended: for every calibration type the loops recognise,
    [UpdateMasters] treats two requirement sets as equal exactly when their
    index arrays are equal entry by entry, in the same order
    ([np.array_equal]): a later exposure that has no master of the type
    receives the current exposure's master frame when its index array is
    the current one's, and is left without a master otherwise. *)
Theorem C1_propagation_by_array_equality
    ftype chktype field slot sc det w esc m i ei :
  calib ftype chktype field slot ->
  sciexp w !! sc = Some esc ->
  GetMasterFrame_nocopy esc slot det = Some m ->
  (sc < i)%nat ->
  sciexp w !! i = Some ei ->
  GetMasterFrame_nocopy ei slot det = None ->
  exists w' ei',
    UpdateMasters sc det ftype chktype w = (Return, w')
    /\ sciexp w' !! i = Some ei'
    /\ GetMasterFrame_nocopy ei' slot det
       = if bool_decide (field ei = field esc) then Some m else None.
Proof.
  unfold GetMasterFrame_nocopy. intros Hc Hsc Hm Hlt Hi Hnone.
  pose proof (lookup_lt_Some _ _ _ Hi) as Hin.
  assert (Hdec : array_equal (field esc) (field ei) = bool_decide (field ei = field esc)).
  { unfold array_equal. apply bool_decide_ext. split; congruence. }
  assert (Hplain : forall fty,
    (fty = "arc" /\ field = _idx_arcs) \/ (fty = "bias" /\ field = _idx_bias)
    \/ (fty = "standard" /\ field = _idx_std) ->
    slot = fty ->
    exists w' ei',
      UpdateMasters sc det (Some fty) chktype w = (Return, w')
      /\ sciexp w' !! i = Some ei'
      /\ masters ei' !! (slot, det)
         = if bool_decide (field ei = field esc) then Some m else None).
  { intros fty Hty ->.
    destruct (UpdateMasters_plain fty chktype field sc det w esc m Hty Hsc Hm)
      as (w' & Hrun & Hfin).
    eexists w', _. split; [exact Hrun|]. split.
    - rewrite Hfin, Hi. reflexivity.
    - rewrite received_slot, Hnone, Hdec.
      rewrite bool_decide_eq_true_2 by lia.
      rewrite (bool_decide_eq_true_2 (None = None)) by reflexivity.
      simpl. rewrite andb_true_r. destruct (bool_decide _); reflexivity. }
  assert (Hflat : forall s fs o fo, flat_pair s fs o fo -> slot = s -> field = fs ->
    exists w' ei',
      UpdateMasters sc det (Some "flat") (Some s) w = (Return, w')
      /\ sciexp w' !! i = Some ei'
      /\ masters ei' !! (slot, det)
         = if bool_decide (field ei = field esc) then Some m else None).
  { intros s fs o fo Hp -> ->.
    destruct (UpdateMasters_flat s fs o fo sc det w esc m Hp Hsc Hm)
      as (w' & Hrun & Hfin).
    eexists w', _. split; [exact Hrun|]. split.
    - rewrite Hfin, Hi. reflexivity.
    - rewrite received_other_slot by (destruct Hp; congruence).
      rewrite received_slot, Hnone, Hdec.
      rewrite bool_decide_eq_true_2 by lia.
      rewrite (bool_decide_eq_true_2 (None = None)) by reflexivity.
      simpl. rewrite andb_true_r. destruct (bool_decide _); reflexivity. }
  destruct Hc.
  - apply Hplain; auto.
  - apply Hplain; auto.
  - apply Hplain; auto 6.
  - eapply Hflat; [apply flat_trace| |]; reflexivity.
  - eapply Hflat; [apply flat_pixelflat| |]; reflexivity.
Qed.

(** The third exposure of [arcs_permuted] lists the arcs as the first does, and receives its arc master. *)
Lemma C1_propagation_by_array_equality_witness :
  exists w' ei',
    UpdateMasters 0 1 (Some "arc") None arcs_permuted = (Return, w')
    /\ sciexp w' !! 2%nat = Some ei'
    /\ GetMasterFrame_nocopy ei' "arc" 1 = Some frame1.
Proof.
  apply (C1_propagation_by_array_equality (Some "arc") None _idx_arcs "arc" 0 1
           arcs_permuted
           (exposure [1; 2]%Z [] [] [] {[ ("arc", 1%Z) := frame1 ]}) frame1 2
           (exposure [1; 2]%Z [] [] [] ∅)).
  - apply calib_arc.
  - reflexivity.
  - vm_compute. reflexivity.
  - lia.
  - reflexivity.
  - vm_compute. reflexivity.
Defined.

(** C4, as stated, fails: requirement sets are sets of frames, and the
    pixel flats [[5; 4]] of the second exposure of [flats_permuted] are the
    frames [[4; 5]] the first exposure is traced from; yet after the call
    for the trace of the first exposure, which holds its trace master, the
    second exposure has no pixelflat master. *)
Lemma C4_permuted_flats_not_shared :
  [5; 4]%Z ≡ₚ [4; 5]%Z
  /\ (UpdateMasters 0 1 (Some "flat") (Some "trace") flats_permuted).1 = Return
  /\ (fun e => GetMasterFrame_nocopy e "trace" 1) <$> sciexp flats_permuted !! 0%nat
     = Some (Some frame1)
  /\ (fun e => GetMasterFrame_nocopy e "pixelflat" 1)
       <$> sciexp flats_permuted !! 1%nat = Some None
  /\ (fun e => GetMasterFrame_nocopy e "pixelflat" 1)
       <$> sciexp (UpdateMasters 0 1 (Some "flat") (Some "trace") flats_permuted).2
           !! 1%nat
     = Some None.
Proof.
  split; [apply Permutation_swap|]. vm_compute. auto.
Qed.

(** C4, amended: when [UpdateMasters] is called for the flat subtype [s] on
    the exposure [sc] of the list, which holds the master [m] of subtype
    [s], the call returns and every exposure [i >= sc] ([sc] included)
    whose index array for the other subtype [o] is, entry by entry and in
    the same order ([np.array_equal]), the index array of [sc] for [s], and
    which has no master of subtype [o], holds [m] in its slot [o]
    afterwards. With [s] the trace this is the pixelflat-tagged copy of
    the trace master. *)
Theorem C4_flat_other_subtype s fs o fo sc det w esc m i ei :
  flat_pair s fs o fo ->
  sciexp w !! sc = Some esc ->
  GetMasterFrame_nocopy esc s det = Some m ->
  (sc <= i)%nat ->
  sciexp w !! i = Some ei ->
  fo ei = fs esc ->
  GetMasterFrame_nocopy ei o det = None ->
  exists w' ei',
    UpdateMasters sc det (Some "flat") (Some s) w = (Return, w')
    /\ sciexp w' !! i = Some ei'
    /\ GetMasterFrame_nocopy ei' o det = Some m.
Proof.
  unfold GetMasterFrame_nocopy. intros Hp Hsc Hm Hle Hi Heq Hnone.
  pose proof (lookup_lt_Some _ _ _ Hi) as Hin.
  destruct (UpdateMasters_flat s fs o fo sc det w esc m Hp Hsc Hm)
    as (w' & Hrun & Hfin).
  eexists w', _. split; [exact Hrun|]. split.
  - rewrite Hfin, Hi. reflexivity.
  - rewrite received_slot.
    rewrite received_other_slot by (destruct Hp; congruence).
    rewrite Hnone.
    assert (Hfield : fo (received (sc + 1) (length (sciexp w)) (fs esc) fs s det m i ei)
                     = fo ei).
    { destruct (received_cases (sc + 1) (length (sciexp w)) (fs esc) fs s det m i ei)
        as [->| ->]; [reflexivity|]. destruct Hp; reflexivity. }
    rewrite Hfield, Heq. unfold array_equal.
    rewrite bool_decide_eq_true_2 by lia.
    rewrite (bool_decide_eq_true_2 (fs esc = fs esc)) by reflexivity.
    rewrite (bool_decide_eq_true_2 (None = None)) by reflexivity.
    reflexivity.
Qed.

(** The second exposure of [shared_flats] receives the trace master of the first as its pixel flat. *)
Lemma C4_flat_other_subtype_witness :
  exists w' ei',
    UpdateMasters 0 1 (Some "flat") (Some "trace") shared_flats = (Return, w')
    /\ sciexp w' !! 1%nat = Some ei'
    /\ GetMasterFrame_nocopy ei' "pixelflat" 1 = Some frame1.
Proof.
  apply (C4_flat_other_subtype "trace" _idx_trace "pixelflat" _idx_flat 0 1 shared_flats
           (exposure [] [] [4; 5]%Z [7]%Z {[ ("trace", 1%Z) := frame1 ]}) frame1 1
           (exposure [] [] [8]%Z [4; 5]%Z ∅)).
  - apply flat_trace.
  - reflexivity.
  - vm_compute. reflexivity.
  - lia.
  - reflexivity.
  - reflexivity.
  - vm_compute. reflexivity.
Defined.

(** C5: a propagation call, however it ends, copies a master frame only
    into slots that were empty: a slot (type and detector) that is set
    before the call holds the same frame after it, and a slot whose content
    differs after the call was empty before it. *)
Theorem C5_master_never_overwritten sc det ftype chktype w c w' i e ty d :
  UpdateMasters sc det ftype chktype w = (c, w') ->
  sciexp w !! i = Some e ->
  exists e',
    sciexp w' !! i = Some e'
    /\ (forall f, GetMasterFrame_nocopy e ty d = Some f ->
                  GetMasterFrame_nocopy e' ty d = Some f)
    /\ (GetMasterFrame_nocopy e' ty d <> GetMasterFrame_nocopy e ty d ->
        GetMasterFrame_nocopy e ty d = None).
Proof.
  unfold GetMasterFrame_nocopy. intros Hrun Hi.
  destruct (UpdateMasters_keeps _ _ _ _ _ _ _ Hrun i e Hi) as (e' & He' & K).
  exists e'. split; [exact He'|]. split.
  - intros f Hf. apply K. exact Hf.
  - intros Hne. destruct (masters e !! (ty, d)) as [f|] eqn:Hf; [|reflexivity].
    rewrite (K _ _ Hf) in Hne. congruence.
Qed.

(** The trace master of the first exposure of [shared_flats] survives the propagation of that very master. *)
Lemma C5_master_never_overwritten_witness :
  exists e',
    sciexp (UpdateMasters 0 1 (Some "flat") (Some "trace") shared_flats).2 !! 0%nat
    = Some e'
    /\ (forall f,
          GetMasterFrame_nocopy
            (exposure [] [] [4; 5]%Z [7]%Z {[ ("trace", 1%Z) := frame1 ]}) "trace" 1 = Some f ->
          GetMasterFrame_nocopy e' "trace" 1 = Some f)
    /\ (GetMasterFrame_nocopy e' "trace" 1
        <> GetMasterFrame_nocopy
             (exposure [] [] [4; 5]%Z [7]%Z {[ ("trace", 1%Z) := frame1 ]}) "trace" 1 ->
        GetMasterFrame_nocopy
          (exposure [] [] [4; 5]%Z [7]%Z {[ ("trace", 1%Z) := frame1 ]}) "trace" 1 = None).
Proof.
  apply (C5_master_never_overwritten 0 1 (Some "flat") (Some "trace") shared_flats
           (UpdateMasters 0 1 (Some "flat") (Some "trace") shared_flats).1
           (UpdateMasters 0 1 (Some "flat") (Some "trace") shared_flats).2 0
           (exposure [] [] [4; 5]%Z [7]%Z {[ ("trace", 1%Z) := frame1 ]}) "trace" 1%Z).
  - vm_compute. reflexivity.
  - reflexivity.
Defined.




(** C10, as stated, fails: with a single exposure the call for
    ["readnoise"] returns without logging anything. *)
Lemma C10_readnoise_last_exposure_silent :
  UpdateMasters 0 1 (Some "readnoise") None single_exposure = (Return, single_exposure)
  /\ log single_exposure = [].
Proof. split; reflexivity. Qed.

(** C10, amended: called with ["readnoise"] on an exposure [sc] of the
    list, [UpdateMasters] returns with every exposure, and so every
    master-frame slot, unchanged; it logs a defect when there is an
    exposure after [sc], and nothing when [sc] is the last exposure. *)
Theorem C10_readnoise_never_propagated sc det chktype w :
  (sc < length (sciexp w))%nat ->
  UpdateMasters sc det (Some "readnoise") chktype w
  = (Return,
     {| sciexp := sciexp w;
        log := if bool_decide (sc + 1 < length (sciexp w))%nat
               then log w ++ [bug_type "readnoise"] else log w |}).
Proof.
  intros Hlt. destruct (lookup_lt_is_Some_2 _ _ Hlt) as [esc Hsc].
  unfold UpdateMasters. cbn [arg_is String.eqb Ascii.eqb Bool.eqb]. rewrite Hsc.
  unfold propagate_plain. unfold range.
  case_bool_decide as Hlast.
  - destruct (length (sciexp w) - (sc + 1))%nat as [|k] eqn:Hk; [lia|].
    reflexivity.
  - replace (length (sciexp w) - (sc + 1))%nat with 0%nat by lia.
    destruct w; reflexivity.
Qed.

(** With later exposures in the list the defect is logged. *)
Lemma C10_readnoise_never_propagated_witness :
  UpdateMasters 0 1 (Some "readnoise") None arcs_permuted
  = (Return,
     {| sciexp := sciexp arcs_permuted; log := [bug_type "readnoise"] |}).
Proof.
  apply (C10_readnoise_never_propagated 0 1 None arcs_permuted). simpl. lia.
Defined.

End UpdateMastersFacts.



(** ** Extraction *)

Section ExtractionFacts.

(** *** Sums over an empty aperture row *)

(** The sum of two zeros, whatever their signs, is a zero. *)
Lemma fadd_zeros (x y : float) : is_zero x -> is_zero y -> is_zero (fadd x y).
Proof. destruct x as [[|]| | |], y as [[|]| | |]; simpl; tauto. Qed.

Lemma fold_fadd_is_zero (l : list float) :
  Forall is_zero l -> forall z, is_zero z -> is_zero (fold_left fadd l z).
Proof.
  induction 1 as [|x l Hx _ IH]; intros z Hz; [exact Hz|].
  simpl. apply IH, fadd_zeros; assumption.
Qed.

Lemma sum8_zeros (r : list float) : Forall is_zero r -> is_zero (sum8 r).
Proof.
  intros H. unfold sum8.
  assert (Hr : forall i, is_zero (default fzero (r !! i))).
  { intros i. destruct (r !! i) as [x|] eqn:E; [|exact I].
    exact (proj1 (Forall_lookup _ _) H i x E). }
  repeat apply fadd_zeros; apply Hr.
Qed.

Lemma add_blocks_zeros k : forall r a,
  Forall is_zero r -> Forall is_zero a ->
  Forall is_zero (add_blocks k r a).1 /\ Forall is_zero (add_blocks k r a).2.
Proof.
  induction k as [|k IH]; intros r a Hr Ha; [split; assumption|].
  simpl. apply IH.
  - apply (Forall_zip_with_fst fadd is_zero is_zero); [exact Hr|].
    apply (Forall_impl is_zero); [apply Forall_take; exact Ha|].
    intros y Hy x Hx. apply fadd_zeros; assumption.
  - apply Forall_drop. exact Ha.
Qed.

Lemma unrolled_sum_zeros (a : list float) :
  Forall is_zero a -> is_zero (unrolled_sum a).
Proof.
  intros Ha. unfold unrolled_sum.
  destruct (add_blocks_zeros (length a / 8 - 1) (take 8 a) (drop 8 a)) as [Hr Hrest];
    [apply Forall_take; exact Ha|apply Forall_drop; exact Ha|].
  apply fold_fadd_is_zero; [exact Hrest|]. apply sum8_zeros. exact Hr.
Qed.

Lemma pairwise_sum_rec_zeros fuel : forall a,
  Forall is_zero a -> is_zero (pairwise_sum_rec fuel a).
Proof.
  induction fuel as [|fuel IH]; intros a Ha; cbn [pairwise_sum_rec];
    destruct (length a <? 8)%nat;
    try (apply fold_fadd_is_zero; [exact Ha|exact I]);
    destruct (length a <=? 128)%nat; try (apply unrolled_sum_zeros; exact Ha).
  apply fadd_zeros; apply IH; [apply Forall_take|apply Forall_drop]; exact Ha.
Qed.

(** A row of zeros, of either sign, sums to [0.0]. *)
Lemma row_sum_zeros {n} (row : vec float n) :
  (forall x, is_zero (row !!! x)) -> row_sum row = fzero.
Proof.
  intros H. unfold row_sum, pairwise_sum.
  assert (Hz : is_zero (pairwise_sum_rec (length (vec_to_list row)) (vec_to_list row)))
    by (apply pairwise_sum_rec_zeros, Forall_vlookup; exact H).
  destruct (pairwise_sum_rec _ _) as [[|]| | |]; try contradiction; reflexivity.
Qed.

(** The fuel is never used up: any fuel from the length of the row on
    gives the same sum. *)
Lemma pairwise_sum_rec_fuel fuel1 : forall fuel2 a,
  (length a <= fuel1)%nat -> (length a <= fuel2)%nat ->
  pairwise_sum_rec fuel1 a = pairwise_sum_rec fuel2 a.
Proof.
  induction fuel1 as [|fuel1 IH]; intros fuel2 a H1 H2.
  - destruct a; [|simpl in H1; lia]. destruct fuel2; reflexivity.
  - destruct fuel2 as [|fuel2].
    { destruct a; [reflexivity|simpl in H2; lia]. }
    cbn [pairwise_sum_rec].
    destruct (Nat.ltb_spec (length a) 8); [reflexivity|].
    destruct (Nat.leb_spec (length a) 128); [reflexivity|].
    assert (Hn2 : (1 <= length a / 2 - (length a / 2) mod 8 < length a)%nat).
    { pose proof (Nat.mod_upper_bound (length a / 2) 8 ltac:(lia)).
      pose proof (Nat.Div0.div_lt_upper_bound (length a) 2 (length a) ltac:(lia)).
      assert (64 <= length a / 2)%nat by (apply Nat.div_le_lower_bound; lia).
      lia. }
    f_equal; apply IH; rewrite ?length_take, ?length_drop; lia.
Qed.

(** A row of fewer than eight entries is added from left to right, and a
    row of eight entries two by two. *)
Lemma row_sum_short {n} (row : vec float n) :
  (n < 8)%nat -> row_sum row = fadd fzero (fold_left fadd (vec_to_list row) fzero).
Proof.
  intros Hn. unfold row_sum, pairwise_sum.
  assert (Hlen : length (vec_to_list row) = n) by apply length_vec_to_list.
  destruct (length (vec_to_list row)) as [|k] eqn:E; cbn [pairwise_sum_rec];
    rewrite E; rewrite (proj2 (Nat.ltb_lt _ _)) by lia; reflexivity.
Qed.

Lemma row_sum_eight (a0 a1 a2 a3 a4 a5 a6 a7 : float) :
  row_sum [# a0; a1; a2; a3; a4; a5; a6; a7]
  = fadd fzero (fadd (fadd (fadd a0 a1) (fadd a2 a3)) (fadd (fadd a4 a5) (fadd a6 a7))).
Proof. reflexivity. Qed.

Lemma fmul_finite_zero (v w : float) :
  is_finite v -> is_zero w -> is_zero (fmul v w).
Proof. destruct v, w; simpl; tauto. Qed.

Section Shapes.

Context {ny nx nobj : nat}.
Implicit Types (a b : vec (vec float nx) ny) (r : fin ny) (x : fin nx).

Lemma lookup_sum_axis1 (f : float -> float -> float) a b r :
  sum_axis1 (img2 f a b) !!! r = row_sum (vzip_with f (a !!! r) (b !!! r)).
Proof.
  unfold sum_axis1, img2. rewrite vlookup_map, vlookup_zip_with. reflexivity.
Qed.

Lemma lookup_slice3 (c : vec (vec (vec float nobj) nx) ny) (o : fin nobj) r x :
  pixel (slice3 c o) r x = voxel c r x o.
Proof. unfold pixel, voxel, slice3. rewrite !vlookup_map. reflexivity. Qed.

(** The product of a row of finite values with an empty aperture row sums
    to zero. *)
Lemma empty_row_sum (c : vec (vec (vec float nobj) nx) ny) (o : fin nobj) a r :
  (forall x, is_zero (voxel c r x o)) ->
  (forall x, is_finite (pixel a r x)) ->
  sum_axis1 (img2 fmul a (slice3 c o)) !!! r = fzero.
Proof.
  intros Hw Ha. rewrite lookup_sum_axis1. apply row_sum_zeros. intros x.
  rewrite vlookup_zip_with. apply fmul_finite_zero; [apply Ha|].
  apply (eq_ind_r is_zero (Hw x) (lookup_slice3 c o r x)).
Qed.

Lemma empty_row_weight (c : vec (vec (vec float nobj) nx) ny) (o : fin nobj) r :
  (forall x, is_zero (voxel c r x o)) ->
  sum_axis1 (slice3 c o) !!! r = fzero.
Proof.
  intros Hw. unfold sum_axis1. rewrite vlookup_map. apply row_sum_zeros.
  intros x. apply (eq_ind_r is_zero (Hw x) (lookup_slice3 c o r x)).
Qed.

(** The two flags set before the NaN test leave the NAN bit clear. *)
Lemma add_flags_below_nan (bp cr : vec bool ny) r :
  Z.land (add_flag cr (2 ^ 1) (add_flag bp (2 ^ 0) (vreplicate ny 0%Z)) !!! r) (2 ^ 5) = 0%Z.
Proof.
  unfold add_flag. rewrite !vlookup_zip_with, vlookup_replicate.
  destruct (cr !!! r), (bp !!! r); reflexivity.
Qed.

Lemma any_true_false (sel : vec bool ny) :
  (forall r, sel !!! r = false) -> any_true sel = false.
Proof.
  intros H. unfold any_true.
  assert (HF : Forall (fun b : bool => b = false) (vec_to_list sel))
    by (apply Forall_vlookup; exact H).
  induction HF as [|b l Hb _ IH]; [reflexivity|]. simpl. rewrite Hb. exact IH.
Qed.

Lemma any_true_true (sel : vec bool ny) r :
  sel !!! r = true -> any_true sel = true.
Proof.
  intros H. unfold any_true. apply existsb_exists. exists true. split; [|reflexivity].
  rewrite <- H. apply list_elem_of_In, elem_of_vlookup. eauto.
Qed.

End Shapes.

Lemma mask_flags_bad_pix : getitem mask_flags "bad_pix" = Ok (2 ^ 0)%Z.
Proof. reflexivity. Qed.

Lemma mask_flags_CR : getitem mask_flags "CR" = Ok (2 ^ 1)%Z.
Proof. reflexivity. Qed.

Lemma mask_flags_NANs : getitem mask_flags "NANs" = Error (KeyError "NANs").
Proof. reflexivity. Qed.


Section BoxcarObject.

Context {ny nx nobj : nat}.
Variable fit : vec float nx -> vec (vec float nx) ny -> vec (vec float nx) ny -> Z
               -> vec (vec float nx) ny.
Variables (slf : @Slf ny nx) (det : Z).
Variables (sciframe varframe skyframe cr_mask mswave bpix : vec (vec float nx) ny).
Variable scitrace : @Scitrace ny nx nobj.
Variable o : fin nobj.

Hypothesis Hwave : pyindex (_mswave slf) (det - 1) = Ok mswave.
Hypothesis Hbpix : pyindex (_bpix slf) (det - 1) = Ok bpix.

Let s := boxcar_sums fit mswave bpix sciframe varframe skyframe cr_mask scitrace
           (2 ^ 0) (2 ^ 1) o.

(** The CR bit of a row is set exactly when the row's sum of
    [weight * (1.0 - crmask)] is positive. *)
Lemma boxcar_sums_cr_bit r :
  Z.testbit (s_boxmask s !!! r) 1
  = fgt (sum_axis1 (img2 fmul (slice3 (object scitrace) o) cr_mask) !!! r) fzero.
Proof.
  subst s. cbn [boxcar_sums s_boxmask]. unfold add_flag.
  rewrite !vlookup_zip_with, vlookup_replicate, !vlookup_map.
  destruct (fgt _ fzero), (fgt _ fzero); reflexivity.
Qed.

(** With a NaN in the summed flux the body warns and then fails on the
    key ["NANs"], which [mask_flags] does not have. *)
Lemma boxcar_object_nan_KeyError bgcorr (st : pass) r :
  isnan (s_scisum s !!! r) = true ->
  exists st',
    boxcar_object fit slf det sciframe varframe skyframe cr_mask scitrace o (bgcorr, st)
    = (Error (KeyError "NANs"), st')
    /\ specobjs st' = specobjs st.
Proof.
  intros Hnan. unfold boxcar_object.
  rewrite Hwave, Hbpix, mask_flags_bad_pix, mask_flags_CR. fold s.
  rewrite (any_true_true _ r) by (rewrite vlookup_map; exact Hnan).
  rewrite mask_flags_NANs. eexists. split; reflexivity.
Qed.

(** C2, amended: the NaN test reads the summed flux only, and the summed
    flux is not divided by the summed weight. For an object that
    [specobjs] holds and whose trace matches ([check_trace]), on a detector
    whose wavelength and bad-pixel images [slf] holds, when no row of the
    object has a NaN summed flux the body of the loop raises nothing, logs
    no warning and stores for the object exactly the sums it computed. In
    these sums, for a row whose object weights are all zero and whose
    background-subtracted science values, variances and sky values are
    finite, the counts and the variance are zero, the NAN flag is not in
    the row's mask, and the sky is the quotient 0/0, NaN. *)
Theorem C2_empty_row_outputs bgcorr (st : pass) so r :
  (forall r', isnan (s_scisum s !!! r') = false) ->
  specobjs st !! fin_to_nat o = Some so ->
  check_trace so (slice2 (traces scitrace) o) = true ->
  (forall x, is_zero (voxel (object scitrace) r x o)) ->
  (forall x, is_finite (fsub (pixel sciframe r x) (pixel (s_bgframe s) r x))) ->
  (forall x, is_finite (pixel varframe r x)) ->
  (forall x, is_finite (pixel skyframe r x)) ->
  boxcar_object fit slf det sciframe varframe skyframe cr_mask scitrace o (bgcorr, st)
  = (Ok (update_bgcorr scitrace o (s_bgframe s) bgcorr),
     {| specobjs :=
          <[fin_to_nat o := {| check_trace := check_trace so;
                               boxcar_wave := Some (s_wvsum s);
                               boxcar_counts := Some (s_scisum s);
                               boxcar_var := Some (s_varsum s);
                               boxcar_sky := Some (s_skysum s);
                               boxcar_mask := Some (s_boxmask s) |}]> (specobjs st);
        plog := plog st
                ++ [Info ("Performing boxcar extraction on object "
                          +:+ pretty (fin_to_nat o + 1) +:+ "/" +:+ pretty nobj);
                    Info "   Fitting the background";
                    Info "   Summing object counts";
                    Info "   Summing variance array"] |})
  /\ s_scisum s !!! r = fzero
  /\ s_varsum s !!! r = fzero
  /\ s_skysum s !!! r = S754_nan
  /\ Z.land (s_boxmask s !!! r) (2 ^ 5) = 0%Z.
Proof.
  intros Hnan Hso Hchk Hw Hsci Hvar Hsky. split.
  { unfold boxcar_object.
    rewrite Hwave, Hbpix, mask_flags_bad_pix, mask_flags_CR. fold s.
    rewrite any_true_false by (intros r'; rewrite vlookup_map; apply Hnan).
    cbn [say specobjs plog]. rewrite Hso, Hchk. cbn [negb].
    unfold fill. rewrite <- !app_assoc. reflexivity. }
  split.
  { subst s. cbn [boxcar_sums s_scisum]. rewrite lookup_sum_axis1.
    apply row_sum_zeros. intros x. unfold img2 at 1. rewrite !vlookup_zip_with.
    apply fmul_finite_zero; [apply Hsci|].
    apply (eq_ind_r is_zero (Hw x) (lookup_slice3 _ o r x)). }
  split.
  { subst s. cbn [boxcar_sums s_varsum]. apply empty_row_sum; assumption. }
  split.
  { subst s. cbn [boxcar_sums s_skysum]. rewrite vlookup_zip_with.
    rewrite empty_row_sum by assumption. rewrite empty_row_weight by assumption.
    reflexivity. }
  subst s. cbn [boxcar_sums s_boxmask]. apply add_flags_below_nan.
Qed.

End BoxcarObject.

(** The second row of [upper_row_trace], outside the aperture. *)
Lemma C2_empty_row_outputs_witness :
  let s := boxcar_sums zero_fit (flat_image (of_Z 2)) (flat_image fzero)
             (flat_image (of_Z 2)) (flat_image (of_Z 2)) (flat_image (of_Z 2))
             (flat_image fone) upper_row_trace (2 ^ 0) (2 ^ 1) 0%fin in
  boxcar_object zero_fit one_detector 1 (flat_image (of_Z 2)) (flat_image (of_Z 2))
    (flat_image (of_Z 2)) (flat_image fone) upper_row_trace 0%fin
    (flat_image fzero, fresh_pass)
  = (Ok (update_bgcorr upper_row_trace 0%fin (s_bgframe s) (flat_image fzero)),
     {| specobjs :=
          <[0%nat := {| check_trace := check_trace fresh_specobj;
                        boxcar_wave := Some (s_wvsum s);
                        boxcar_counts := Some (s_scisum s);
                        boxcar_var := Some (s_varsum s);
                        boxcar_sky := Some (s_skysum s);
                        boxcar_mask := Some (s_boxmask s) |}]> (specobjs fresh_pass);
        plog := plog (@fresh_pass 2)
                ++ [Info ("Performing boxcar extraction on object "
                          +:+ pretty (0 + 1)%nat +:+ "/" +:+ pretty 1%nat);
                    Info "   Fitting the background";
                    Info "   Summing object counts";
                    Info "   Summing variance array"] |})
  /\ s_scisum s !!! 1%fin = fzero
  /\ s_varsum s !!! 1%fin = fzero
  /\ s_skysum s !!! 1%fin = S754_nan
  /\ Z.land (s_boxmask s !!! 1%fin) (2 ^ 5) = 0%Z.
Proof.
  apply (C2_empty_row_outputs zero_fit one_detector 1 (flat_image (of_Z 2))
           (flat_image (of_Z 2)) (flat_image (of_Z 2)) (flat_image fone)
           (flat_image (of_Z 2)) (flat_image fzero) upper_row_trace 0%fin
           eq_refl eq_refl (flat_image fzero) fresh_pass fresh_specobj 1%fin).
  - intros r. inv_fin r; [reflexivity|]. intros r. inv_fin r; [reflexivity|].
    intros r. inv_fin r.
  - reflexivity.
  - reflexivity.
  - intros x. inv_fin x; [exact I|]. intros x. inv_fin x; [exact I|]. intros x. inv_fin x.
  - intros x. inv_fin x; [exact I|]. intros x. inv_fin x; [exact I|]. intros x. inv_fin x.
  - intros x. inv_fin x; [exact I|]. intros x. inv_fin x; [exact I|]. intros x. inv_fin x.
  - intros x. inv_fin x; [exact I|]. intros x. inv_fin x; [exact I|]. intros x. inv_fin x.
Defined.

(** C3: the claim asks for the CR bit exactly on the rows with a flagged
    aperture pixel. On two rows of one aperture pixel each, the first not
    flagged and the second flagged in [crmask], the pass sets the CR bit
    (2) on the first row and not on the second: the sum is taken over
    [1.0 - crmask]. *)
Lemma C3_cr_bit_inverted :
  cosmic_ray_run.1 = Ok (flat_image fzero)
  /\ boxcar_mask <$> specobjs cosmic_ray_run.2 !! 0%nat = Some (Some [# 2; 0]%Z).
Proof. vm_compute. auto. Qed.

(** C2, as stated, fails: the second row of the aperture is empty (its
    summed weight is zero), and the pass ends normally with the counts
    of that row equal to zero, never NaN, so that nothing is flagged (its
    mask is 0) and the sky of the row is left NaN. *)
Lemma C2_empty_row_not_flagged :
  empty_row_run.1 = Ok (flat_image fzero)
  /\ boxcar_counts <$> specobjs empty_row_run.2 !! 0%nat
     = Some (Some [# of_Z 4; S754_zero false])
  /\ boxcar_sky <$> specobjs empty_row_run.2 !! 0%nat
     = Some (Some [# of_Z 2; S754_nan])
  /\ boxcar_mask <$> specobjs empty_row_run.2 !! 0%nat = Some (Some [# 2; 0]%Z).
Proof. vm_compute. auto. Qed.

End ExtractionFacts.

(** ** Setting up the science exposures *)

Section SetupScienceFacts.

(** *** The loop on the frames of one type *)

Lemma append_to_lookup (g g' : group) (k : string) (x : result string) :
  append_to g k x = Ok g' ->
  exists l v, g !! k = Some l /\ x = Ok v /\ g' = <[k := l ++ [v]]> g.
Proof.
  unfold append_to, getitem. destruct (g !! k) as [l|]; simpl; [|discriminate].
  destruct x as [v|]; simpl; intros H; inversion H; subst. eauto.
Qed.

Lemma pyindex_name_of fitsdict idx s :
  pyindex (filename fitsdict) idx = Ok s -> name_of fitsdict idx = s.
Proof. unfold name_of. intros ->. reflexivity. Qed.

Lemma pyindex_target_of fitsdict idx s :
  pyindex (target fitsdict) idx = Ok s -> target_of fitsdict idx = s.
Proof. unfold target_of. intros ->. reflexivity. Qed.

(** One frame: the file name is appended when it is new; the target of a
    standard goes with its file name; the target of the science frame is
    appended in any case. *)
Lemma add_frame_lists fitsdict key scidx (g g' : group) idx names :
  key <> "sciobj" -> key <> "stdobj" ->
  add_frame fitsdict key scidx g idx = Ok g' ->
  g !! key = Some names ->
  let fresh := negb (bool_decide (name_of fitsdict idx ∈ names)) in
  g' !! key = Some (if fresh then names ++ [name_of fitsdict idx] else names)
  /\ (key = "science" -> forall sci, g !! "sciobj" = Some sci ->
        g' !! "sciobj" = Some (sci ++ [target_of fitsdict scidx]))
  /\ (key = "standard" -> forall std, g !! "stdobj" = Some std ->
        g' !! "stdobj"
        = Some (if fresh then std ++ [target_of fitsdict idx] else std)).
Proof.
  intros Hsci Hstd Hrun Hkey. unfold add_frame in Hrun.
  destruct (pyindex (filename fitsdict) idx) as [fname|] eqn:Hname; [|discriminate].
  rewrite (pyindex_name_of _ _ _ Hname). simpl in Hrun.
  unfold getitem in Hrun at 1. rewrite Hkey in Hrun. simpl in Hrun.
  destruct (String.eqb_spec key "standard") as [Hs|Hns];
    destruct (String.eqb_spec key "science") as [Hsc|Hnsc];
    [congruence| | |];
    case_bool_decide as Hin; simpl in *.
  all: repeat match type of Hrun with
       | context [append_to ?h ?k ?x] =>
           let E := fresh "Ha" in
           destruct (append_to h k x) as [?g1|] eqn:E; [|discriminate];
           apply append_to_lookup in E as (?l & ?v & ? & ? & ->); simpl in Hrun
       end.
  all: inversion Hrun; subst; clear Hrun.
  all: repeat match goal with
       | H : pyindex (target _) _ = Ok _ |- _ =>
           rewrite (pyindex_target_of _ _ _ H); clear H
       end.
  all: repeat split; try congruence; intros; simplify_map_eq; try reflexivity.
Qed.

Lemma new_frames_NoDup fitsdict idxs :
  forall seen, NoDup seen ->
    NoDup (seen ++ (name_of fitsdict <$> new_frames fitsdict seen idxs)).
Proof.
  induction idxs as [|idx rest IH]; intros seen Hnd; simpl.
  - rewrite app_nil_r. exact Hnd.
  - case_bool_decide as Hin; [apply IH; exact Hnd|].
    rewrite fmap_cons, cons_middle, app_assoc. apply IH.
    apply NoDup_app. split; [exact Hnd|]. split.
    + intros x Hx Hx'. apply list_elem_of_singleton in Hx'. subst x. contradiction.
    + apply NoDup_singleton.
Qed.

Lemma new_frames_covers fitsdict idxs :
  forall seen idx, idx ∈ idxs ->
    name_of fitsdict idx ∈ seen ++ (name_of fitsdict <$> new_frames fitsdict seen idxs).
Proof.
  induction idxs as [|i rest IH]; intros seen idx Hidx; [inversion Hidx|].
  simpl. apply elem_of_cons in Hidx as [->|Hidx].
  - case_bool_decide as Hin.
    + apply elem_of_app. left. exact Hin.
    + rewrite fmap_cons. apply elem_of_app. right. apply elem_of_cons. left. reflexivity.
  - case_bool_decide as Hin; [apply IH; exact Hidx|].
    rewrite fmap_cons, cons_middle, app_assoc. apply IH. exact Hidx.
Qed.

Lemma new_frames_sublist fitsdict idxs :
  forall seen, new_frames fitsdict seen idxs `sublist_of` idxs.
Proof.
  induction idxs as [|i rest IH]; intros seen; simpl; [constructor|].
  case_bool_decide.
  - apply sublist_cons. apply IH.
  - apply sublist_skip. apply IH.
Qed.

(** The loop of lines 107-114 on the frames [idxs]. *)
Lemma add_frames_lists fitsdict key scidx :
  key <> "sciobj" -> key <> "stdobj" ->
  forall idxs (g g' : group) names,
    add_frames fitsdict key scidx idxs g = Ok g' ->
    g !! key = Some names ->
    g' !! key = Some (names ++ (name_of fitsdict <$> new_frames fitsdict names idxs))
    /\ (key = "science" -> forall sci, g !! "sciobj" = Some sci ->
          g' !! "sciobj"
          = Some (sci ++ replicate (length idxs) (target_of fitsdict scidx)))
    /\ (key = "standard" -> forall std, g !! "stdobj" = Some std ->
          g' !! "stdobj"
          = Some (std ++ (target_of fitsdict <$> new_frames fitsdict names idxs))).
Proof.
  intros Hsci Hstd. unfold add_frames.
  induction idxs as [|idx rest IH]; intros g g' names Hrun Hkey; simpl in Hrun.
  - inversion Hrun; subst. simpl. rewrite !app_nil_r.
    split; [exact Hkey|]. split; intros _ l Hl; rewrite ?app_nil_r; exact Hl.
  - destruct (add_frame fitsdict key scidx g idx) as [g1|] eqn:Hstep; [|discriminate].
    simpl in Hrun.
    destruct (add_frame_lists _ _ _ _ _ _ _ Hsci Hstd Hstep Hkey) as (Hk1 & Hs1 & Hd1).
    simpl. case_bool_decide as Hin; simpl in Hk1, Hd1.
    + destruct (IH _ _ _ Hrun Hk1) as (Hk & Hs & Hd).
      split; [exact Hk|]. split.
      * intros E sci Hsciobj. rewrite (Hs E _ (Hs1 E _ Hsciobj)).
        rewrite <- app_assoc. reflexivity.
      * intros E std Hstdobj. exact (Hd E _ (Hd1 E _ Hstdobj)).
    + destruct (IH _ _ _ Hrun Hk1) as (Hk & Hs & Hd).
      split; [|split].
      * rewrite Hk, fmap_cons, <- app_assoc. reflexivity.
      * intros E sci Hsciobj. rewrite (Hs E _ (Hs1 E _ Hsciobj)).
        rewrite <- app_assoc. reflexivity.
      * intros E std Hstdobj. rewrite (Hd E _ (Hd1 E _ Hstdobj)).
        rewrite fmap_cons, <- app_assoc. reflexivity.
Qed.

(** C9, as stated, fails on the standard targets: two science exposures of
    one group matched to the same standard frame are two occurrences of
    that standard, and the group file lists its target once, while each
    science frame gives its target to [sciobj]. *)
Lemma C9_standard_target_listed_once :
  written_list two_science_run.2 "01" "stdobj" = Some ["Feige34"]
  /\ written_list two_science_run.2 "01" "standard" = Some ["std.fits"]
  /\ written_list two_science_run.2 "01" "sciobj" = Some ["NGC1"; "NGC2"].
Proof. vm_compute. auto. Qed.

(** C9, amended: in the loop on the frames of one type, a file name is
    appended to the list of the type only if it is not there yet, in the
    order of the frames (the list stays free of duplicates and every frame
    ends up listed); for the type science the target of the science frame
    is appended to [sciobj] once per frame of the loop, new or not; for
    the type standard the target of a frame is appended to [stdobj] only
    together with its file name, so once per new file and not once per
    occurrence. *)
Theorem C9_group_lists fitsdict key scidx idxs (g g' : group) names :
  key <> "sciobj" -> key <> "stdobj" ->
  add_frames fitsdict key scidx idxs g = Ok g' ->
  g !! key = Some names ->
  let added := new_frames fitsdict names idxs in
  g' !! key = Some (names ++ (name_of fitsdict <$> added))
  /\ added `sublist_of` idxs
  /\ (NoDup names -> NoDup (names ++ (name_of fitsdict <$> added)))
  /\ (forall idx, idx ∈ idxs ->
        name_of fitsdict idx ∈ names ++ (name_of fitsdict <$> added))
  /\ (key = "science" -> forall sci, g !! "sciobj" = Some sci ->
        g' !! "sciobj"
        = Some (sci ++ replicate (length idxs) (target_of fitsdict scidx)))
  /\ (key = "standard" -> forall std, g !! "stdobj" = Some std ->
        g' !! "stdobj" = Some (std ++ (target_of fitsdict <$> added))).
Proof.
  intros Hsci Hstd Hrun Hkey added.
  destruct (add_frames_lists fitsdict key scidx Hsci Hstd idxs g g' names Hrun Hkey)
    as (Hk & Hs & Hd).
  split; [exact Hk|]. split; [apply new_frames_sublist|].
  split; [apply new_frames_NoDup|]. split; [apply new_frames_covers|].
  split; assumption.
Qed.

(** The standards 2, 4 and 5 of [six_frames] added to [one_standard_group]: only the file of frame 4 is new. *)
Lemma C9_group_lists_witness :
  let added := new_frames six_frames ["std.fits"] [2; 4; 5]%Z in
  two_standards_group !! "standard" = Some (["std.fits"] ++ (name_of six_frames <$> added))
  /\ added `sublist_of` [2; 4; 5]%Z
  /\ (NoDup ["std.fits"] -> NoDup (["std.fits"] ++ (name_of six_frames <$> added)))
  /\ (forall idx, idx ∈ [2; 4; 5]%Z ->
        name_of six_frames idx ∈ ["std.fits"] ++ (name_of six_frames <$> added))
  /\ ("standard" = "science" -> forall sci, one_standard_group !! "sciobj" = Some sci ->
        two_standards_group !! "sciobj"
        = Some (sci ++ replicate (length [2; 4; 5]%Z) (target_of six_frames 1)))
  /\ ("standard" = "standard" -> forall std, one_standard_group !! "stdobj" = Some std ->
        two_standards_group !! "stdobj" = Some (std ++ (target_of six_frames <$> added))).
Proof.
  apply (C9_group_lists six_frames "standard" 1%Z [2; 4; 5]%Z one_standard_group
           two_standards_group ["std.fits"]).
  - discriminate.
  - discriminate.
  - vm_compute. reflexivity.
  - vm_compute. reflexivity.
Defined.

(** C8: when a restriction to setups is asked for and no setup file
    exists, [SetupScience] raises the fatal error at once: nothing has been
    logged, sorted or written, and no science exposure constructed. *)
Theorem C8_setup_filter_without_file {SetupDict : Type}
    (empty_setup : SetupDict) instr_setup (setup_file : string) (nexist : Z)
    (load_setup : SetupDict) sort_data new_ScienceExposure int_of_string
    (settings : Settings) (fitsdict : Fitsdict) (tr : list event) (wanted : list string) :
  reduce_setup settings = Some wanted ->
  nexist = 0%Z ->
  SetupScience empty_setup instr_setup (setup_file, nexist) load_setup sort_data
    new_ScienceExposure int_of_string settings fitsdict tr
  = (Error (FatalError
              "No .setup file provided.  Cannot use 'reduce setup' in Settings file"),
     tr).
Proof.
  intros Hsetup ->. unfold SetupScience. rewrite Hsetup. reflexivity.
Qed.

(** A restriction to the setup ["01"] with no setup file. *)
Lemma C8_setup_filter_without_file_witness :
  SetupScience tt (fun _ _ _ d => ("01", d)) ("run.setup", 0%Z) tt
    (fun _ _ => [("science", [0; 1]%Z)]) science_exposure decimal
    {| run_calcheck := false; reduce_setup := Some ["01"]; output_sorted := None;
       run_redname := "run.pypit"; mosaic_ndet := 1; spect_index := ∅ |}
    four_frames []
  = (Error (FatalError
              "No .setup file provided.  Cannot use 'reduce setup' in Settings file"),
     []).
Proof.
  apply (C8_setup_filter_without_file tt (fun _ _ _ d => ("01", d)) "run.setup" 0%Z tt
           (fun _ _ => [("science", [0; 1]%Z)]) science_exposure decimal _ four_frames []
           ["01"]); reflexivity.
Defined.

End SetupScienceFacts.

(* ================================================================= *)
(** * Further properties *)

(** ** What a propagation call can write *)

Section UpdateMastersWrites.

Variables (sc : nat) (det : Z) (ftype chktype : option string).

Lemma writes_trans w1 w2 w3 :
  writes sc det ftype chktype w1 w2 -> writes sc det ftype chktype w2 w3 ->
  writes sc det ftype chktype w1 w3.
Proof.
  intros H12 H23. induction H23 as [|w m _ IH|w i ei frame totype _ IH Hi Hm Hn].
  - exact H12.
  - apply writes_emit. exact IH.
  - eapply writes_copy; eauto.
Qed.

Lemma copy_master_writes chkarr chkfarr fromtype totype numsci i w c w' :
  may_write sc ftype chktype i totype ->
  copy_master sc det chkarr chkfarr fromtype totype numsci i w = (c, w') ->
  writes sc det ftype chktype w w'.
Proof.
  intros Hmay. unfold copy_master. intros H.
  destruct (sciexp w !! i) as [ei|] eqn:Hei; [|inversion H; subst; constructor].
  destruct (array_equal chkarr chkfarr); simpl in H;
    [|inversion H; subst; constructor].
  case_bool_decide as Hnone; simpl in H; [|inversion H; subst; constructor].
  destruct (sciexp w !! sc) as [esc|];
    [|inversion H; subst; apply writes_emit; constructor].
  destruct (GetMasterFrame esc fromtype det) as [frame|err];
    [|inversion H; subst; apply writes_emit; constructor].
  inversion H; subst; clear H.
  eapply writes_copy; [apply writes_emit; constructor| |exact Hmay|exact Hnone].
  exact Hei.
Qed.

Lemma copy_at_writes chkarr field fromtype totype numsci i w c w' :
  may_write sc ftype chktype i totype ->
  copy_at sc det chkarr field fromtype totype numsci i w = (c, w') ->
  writes sc det ftype chktype w w'.
Proof.
  intros Hmay. unfold copy_at. destruct (sciexp w !! i).
  - apply copy_master_writes. exact Hmay.
  - intros H; inversion H; subst; constructor.
Qed.

Lemma for_each_writes body idxs :
  (forall i w c w', i ∈ idxs -> body i w = (c, w') -> writes sc det ftype chktype w w') ->
  forall w c w', for_each idxs body w = (c, w') -> writes sc det ftype chktype w w'.
Proof.
  induction idxs as [|i rest IH]; intros Hbody w c w' H; simpl in H.
  - inversion H; subst; constructor.
  - destruct (body i w) as [c1 w1] eqn:Hb.
    assert (K : writes sc det ftype chktype w w1)
      by (eapply Hbody; [left|exact Hb]).
    destruct c1; try (inversion H; subst; exact K).
    eapply writes_trans; [exact K|]. eapply IH; [|exact H].
    intros j w0 c0 w0' Hj. apply Hbody. right. exact Hj.
Qed.

Lemma elem_of_range lo hi i : i ∈ range lo hi -> (lo <= i < hi)%nat.
Proof. unfold range. rewrite list_elem_of_In, in_seq. lia. Qed.

Lemma flat_body_writes f chkarr origtype totype numsci i w c w' :
  (totype ∈ ["trace"; "pixelflat"] -> may_write sc ftype chktype i totype) ->
  flat_body sc det f chkarr origtype totype numsci i w = (c, w') ->
  writes sc det ftype chktype w w'.
Proof.
  intros Hmay. unfold flat_body.
  destruct (String.eqb_spec totype "trace") as [->|_].
  { apply copy_at_writes, Hmay. apply list_elem_of_here. }
  destruct (String.eqb_spec totype "pixelflat") as [->|_].
  { apply copy_at_writes, Hmay. apply list_elem_of_further, list_elem_of_here. }
  intros H; inversion H; subst; apply writes_emit; constructor.
Qed.

Lemma plain_body_writes f chkarr numsci i w c w' :
  ftype = Some f ->
  (sc < i)%nat ->
  plain_body sc det f chkarr numsci i w = (c, w') ->
  writes sc det ftype chktype w w'.
Proof.
  intros Hf Hlt. unfold plain_body.
  destruct (String.eqb_spec f "arc") as [E|_].
  { apply copy_at_writes. left. rewrite Hf, E.
    split; [apply list_elem_of_here|]. split; [reflexivity|lia]. }
  destruct (String.eqb_spec f "bias") as [E|_].
  { apply copy_at_writes. left. rewrite Hf, E.
    split; [apply list_elem_of_further, list_elem_of_here|]. split; [reflexivity|lia]. }
  destruct (String.eqb_spec f "standard") as [E|_].
  { apply copy_at_writes. left. rewrite Hf, E.
    split; [do 2 apply list_elem_of_further; apply list_elem_of_here|].
    split; [reflexivity|lia]. }
  intros H; inversion H; subst; apply writes_emit; constructor.
Qed.

Lemma other_subtype_flat s :
  s ∈ ["trace"; "pixelflat"] -> other_subtype s ∈ ["trace"; "pixelflat"].
Proof.
  intros H. apply elem_of_cons in H as [->|H];
    [apply list_elem_of_further, list_elem_of_here|].
  apply elem_of_cons in H as [->|H]; [apply list_elem_of_here|]. inversion H.
Qed.

Lemma propagate_flat_writes s chkarr w c w' :
  ftype = Some "flat" -> chktype = Some s -> s ∈ ["trace"; "pixelflat"] ->
  propagate_flat sc det "flat" s chkarr w = (c, w') ->
  writes sc det ftype chktype w w'.
Proof.
  intros Hf Hc Hsub. unfold propagate_flat.
  destruct (for_each _ _ w) as [c1 w1] eqn:H1.
  assert (K1 : writes sc det ftype chktype w w1).
  { eapply for_each_writes; [|exact H1]. intros i w0 c0 w0' Hi.
    apply elem_of_range in Hi. apply flat_body_writes. intros _.
    right. split; [exact Hf|]. exists s. split; [exact Hc|]. split; [exact Hsub|].
    left. split; [reflexivity|lia]. }
  destruct c1; try (intros H; inversion H; subst; exact K1).
  destruct (for_each _ _ w1) as [c2 w2] eqn:H2.
  assert (K2 : writes sc det ftype chktype w1 w2).
  { eapply for_each_writes; [|exact H2]. intros i w0 c0 w0' Hi.
    apply elem_of_range in Hi. apply flat_body_writes. intros _.
    right. split; [exact Hf|]. exists s. split; [exact Hc|]. split; [exact Hsub|].
    right. split; [reflexivity|lia]. }
  intros H. eapply writes_trans; [exact K1|].
  destruct c2; inversion H; subst; exact K2.
Qed.

Lemma propagate_plain_writes f chkarr w c w' :
  ftype = Some f ->
  propagate_plain sc det f chkarr w = (c, w') ->
  writes sc det ftype chktype w w'.
Proof.
  intros Hf. unfold propagate_plain.
  destruct (for_each _ _ w) as [c1 w1] eqn:H1.
  assert (K1 : writes sc det ftype chktype w w1).
  { eapply for_each_writes; [|exact H1]. intros i w0 c0 w0' Hi.
    apply elem_of_range in Hi. apply (plain_body_writes f); [exact Hf|lia]. }
  intros H. destruct c1; inversion H; subst; exact K1.
Qed.

Lemma arg_is_spec (x : option string) (s : string) : reflect (x = Some s) (arg_is x s).
Proof.
  destruct x as [t|]; simpl.
  - destruct (String.eqb_spec t s); constructor; congruence.
  - constructor. discriminate.
Qed.

Lemma bug_return_writes text w c w' :
  bug_return text w = (c, w') -> writes sc det ftype chktype w w'.
Proof.
  unfold bug_return. destruct text; intros H; inversion H; subst;
    [apply writes_emit|]; constructor.
Qed.

(** Whatever the arguments and however the call ends, the state it leaves
    comes from the initial one by log entries and by writes the loops may
    make. *)
Lemma UpdateMasters_writes w c w' :
  UpdateMasters sc det ftype chktype w = (c, w') ->
  writes sc det ftype chktype w w'.
Proof.
  unfold UpdateMasters.
  assert (Hat : forall (field : ScienceExposure -> list Z)
                       (loops : list Z -> world -> ctl * world),
    (forall chkarr, loops chkarr w = (c, w') -> writes sc det ftype chktype w w') ->
    match sciexp w !! sc with
    | Some esc => loops (field esc) w
    | None => (Raise IndexError, w)
    end = (c, w') -> writes sc det ftype chktype w w').
  { intros field loops Hloops. destruct (sciexp w !! sc).
    - apply Hloops.
    - intros H; inversion H; subst; constructor. }
  destruct (arg_is_spec ftype "arc") as [E|_];
    [apply Hat; intros chkarr; apply propagate_plain_writes; exact E|].
  destruct (arg_is_spec ftype "bias") as [E|_];
    [apply Hat; intros chkarr; apply propagate_plain_writes; exact E|].
  destruct (arg_is_spec ftype "readnoise") as [E|_];
    [apply Hat; intros chkarr; apply propagate_plain_writes; exact E|].
  destruct (arg_is_spec ftype "flat") as [E|_].
  { destruct (arg_is_spec chktype "trace") as [Ec|_];
      [apply Hat; intros chkarr; apply propagate_flat_writes;
       [exact E|exact Ec|apply list_elem_of_here]|].
    destruct (arg_is_spec chktype "pixelflat") as [Ec|_];
      [apply Hat; intros chkarr; apply propagate_flat_writes;
       [exact E|exact Ec|apply list_elem_of_further, list_elem_of_here]|].
    apply bug_return_writes. }
  destruct (arg_is_spec ftype "standard") as [E|_];
    [apply Hat; intros chkarr; apply propagate_plain_writes; exact E|].
  apply bug_return_writes.
Qed.

End UpdateMastersWrites.

Section UpdateMastersInvariants.

Lemma same_indices_refl e : same_indices e e.
Proof. repeat split. Qed.

Lemma same_indices_set e frame totype det :
  same_indices e (SetMasterFrame e frame totype det).
Proof. repeat split. Qed.

Lemma same_indices_trans e1 e2 e3 :
  same_indices e1 e2 -> same_indices e2 e3 -> same_indices e1 e3.
Proof.
  unfold same_indices. intros (?&?&?&?&?&?&?) (?&?&?&?&?&?&?).
  repeat split; congruence.
Qed.

Lemma writes_same_indices sc det ftype chktype w w' :
  writes sc det ftype chktype w w' ->
  Forall2 same_indices (sciexp w) (sciexp w').
Proof.
  induction 1 as [|w1 m _ IH|w1 i ei frame totype _ IH Hi Hm Hn].
  - apply Forall2_same_length_lookup. split; [reflexivity|].
    intros i x y Hx Hy. assert (x = y) by congruence. subst. apply same_indices_refl.
  - exact IH.
  - simpl. apply Forall2_same_length_lookup.
    pose proof (Forall2_length _ _ _ IH) as Hlen.
    split; [rewrite length_insert; exact Hlen|].
    intros j x y Hx Hy.
    destruct (decide (j = i)) as [->|Hne].
    + rewrite list_lookup_insert_eq in Hy by (eapply lookup_lt_Some; eauto).
      inversion Hy; subst y.
      eapply same_indices_trans; [|apply same_indices_set].
      eapply Forall2_lookup_lr; eauto.
    + rewrite list_lookup_insert_ne in Hy by auto.
      eapply Forall2_lookup_lr; eauto.
Qed.

(** X1: whatever its arguments and however it ends, [UpdateMasters] leaves
    the list of exposures with the same length and every exposure with the
    index arrays it had: only master-frame slots are written. *)
Theorem UpdateMasters_preserves_indices sc det ftype chktype w :
  Forall2 same_indices (sciexp w) (sciexp (UpdateMasters sc det ftype chktype w).2).
Proof.
  destruct (UpdateMasters sc det ftype chktype w) as [c w'] eqn:H.
  eapply writes_same_indices, UpdateMasters_writes, H.
Qed.

Lemma flat_not_plain : "flat" ∉ ["arc"; "bias"; "standard"].
Proof.
  intros H. repeat (apply elem_of_cons in H as [H|H]; [discriminate|]). inversion H.
Qed.

Lemma may_write_from sc ftype chktype i totype :
  may_write sc ftype chktype i totype ->
  ((if arg_is ftype "flat" then sc else S sc) <= i)%nat.
Proof.
  intros [(Hty & Hf & Hlt)|(Hf & s & _ & _ & Hrange)].
  - rewrite Hf. simpl. destruct (String.eqb_spec totype "flat") as [E|_]; [|lia].
    exfalso. rewrite E in Hty. exact (flat_not_plain Hty).
  - rewrite Hf. simpl. destruct Hrange as [[_ Hlt]|[_ Hle]]; lia.
Qed.

Lemma writes_take sc det ftype chktype w w' :
  writes sc det ftype chktype w w' ->
  take (if arg_is ftype "flat" then sc else S sc) (sciexp w')
  = take (if arg_is ftype "flat" then sc else S sc) (sciexp w).
Proof.
  induction 1 as [|w1 m _ IH|w1 i ei frame totype _ IH Hi Hm Hn].
  - reflexivity.
  - exact IH.
  - simpl. rewrite take_insert_ge; [exact IH|]. eapply may_write_from. exact Hm.
Qed.

(** X2: a call never touches the exposures before the current one: the
    first [sc] exposures are the same objects after the call, and for a
    type other than flat the current exposure is untouched as well. *)
Theorem UpdateMasters_earlier_untouched sc det ftype chktype w :
  take (if arg_is ftype "flat" then sc else S sc)
       (sciexp (UpdateMasters sc det ftype chktype w).2)
  = take (if arg_is ftype "flat" then sc else S sc) (sciexp w).
Proof.
  destruct (UpdateMasters sc det ftype chktype w) as [c w'] eqn:H.
  eapply writes_take, UpdateMasters_writes, H.
Qed.

Lemma may_write_slot sc ftype chktype i totype :
  may_write sc ftype chktype i totype ->
  if arg_is ftype "flat" then totype ∈ ["trace"; "pixelflat"] else ftype = Some totype.
Proof.
  intros [(Hty & Hf & _)|(Hf & s & _ & Hsub & Hto)].
  - rewrite Hf. simpl. destruct (String.eqb_spec totype "flat") as [E|_]; [|reflexivity].
    exfalso. rewrite E in Hty. exact (flat_not_plain Hty).
  - rewrite Hf. simpl. destruct Hto as [[Hto _]|[Hto _]]; rewrite Hto.
    + exact Hsub.
    + apply other_subtype_flat. exact Hsub.
Qed.

Lemma writes_other_slots sc det ftype chktype w w' ty d :
  writes sc det ftype chktype w w' ->
  d <> det
  \/ ~ (if arg_is ftype "flat" then ty ∈ ["trace"; "pixelflat"] else ftype = Some ty) ->
  forall i e, sciexp w !! i = Some e ->
    exists e', sciexp w' !! i = Some e'
               /\ GetMasterFrame_nocopy e' ty d = GetMasterFrame_nocopy e ty d.
Proof.
  intros Hw Hother. induction Hw as [|w1 m _ IH|w1 j ej frame totype _ IH Hj Hm Hn];
    intros i e Hi.
  - eauto.
  - apply IH. exact Hi.
  - destruct (IH i e Hi) as (e1 & He1 & Heq). simpl.
    destruct (decide (i = j)) as [->|Hne].
    + assert (e1 = ej) by congruence. subst e1.
      exists (SetMasterFrame ej frame totype det). split.
      * apply list_lookup_insert_eq. eapply lookup_lt_Some; eauto.
      * rewrite <- Heq. unfold GetMasterFrame_nocopy. simpl.
        apply lookup_insert_ne. intros E. inversion E; subst.
        destruct Hother as [Hd|Hty]; [congruence|].
        apply Hty. eapply may_write_slot. exact Hm.
    + exists e1. split; [|exact Heq]. rewrite list_lookup_insert_ne; auto.
Qed.

(** X3: a call writes only slots of its own detector and type: the slots of
    every other detector, and the slots of every type other than [ftype]
    (for a flat: other than trace and pixelflat), hold after the call what
    they held before, in every exposure. *)
Theorem UpdateMasters_other_slots_untouched sc det ftype chktype w ty d i e :
  d <> det
  \/ ~ (if arg_is ftype "flat" then ty ∈ ["trace"; "pixelflat"] else ftype = Some ty) ->
  sciexp w !! i = Some e ->
  exists e', sciexp (UpdateMasters sc det ftype chktype w).2 !! i = Some e'
             /\ GetMasterFrame_nocopy e' ty d = GetMasterFrame_nocopy e ty d.
Proof.
  intros Hother Hi.
  destruct (UpdateMasters sc det ftype chktype w) as [c w'] eqn:H.
  eapply writes_other_slots; eauto. eapply UpdateMasters_writes, H.
Qed.

(** The arc slot of detector 2 of the third exposure of [arcs_permuted],
    when the arc master of detector 1 is propagated. *)
Lemma UpdateMasters_other_slots_untouched_witness :
  exists e', sciexp (UpdateMasters 0 1 (Some "arc") None arcs_permuted).2 !! 2%nat
             = Some e'
             /\ GetMasterFrame_nocopy e' "arc" 2
                = GetMasterFrame_nocopy (exposure [1; 2]%Z [] [] [] ∅) "arc" 2.
Proof.
  apply (UpdateMasters_other_slots_untouched 0 1 (Some "arc") None arcs_permuted
           "arc" 2%Z 2 (exposure [1; 2]%Z [] [] [] ∅)).
  - left. discriminate.
  - reflexivity.
Defined.

(** X4: for a type other than flat the subtype is not looked at: two calls
    that differ in [chktype] only do the same. *)
Theorem UpdateMasters_chktype_unused sc det ftype chktype1 chktype2 w :
  ftype <> Some "flat" ->
  UpdateMasters sc det ftype chktype1 w = UpdateMasters sc det ftype chktype2 w.
Proof.
  intros Hnf. unfold UpdateMasters.
  destruct (arg_is_spec ftype "flat") as [E|_]; [contradiction|].
  reflexivity.
Qed.

Lemma UpdateMasters_chktype_unused_witness :
  UpdateMasters 0 1 (Some "arc") (Some "trace") arcs_permuted
  = UpdateMasters 0 1 (Some "arc") None arcs_permuted.
Proof.
  apply (UpdateMasters_chktype_unused 0 1 (Some "arc") (Some "trace") None arcs_permuted).
  discriminate.
Defined.

(** X5: when [sc] is not an index of the list, a call for a recognised
    type raises [IndexError] before anything is written or logged. *)
Theorem UpdateMasters_index_out_of_range sc det ftype chktype w :
  (length (sciexp w) <= sc)%nat ->
  ftype ∈ [Some "arc"; Some "bias"; Some "readnoise"; Some "standard"]
  \/ (ftype = Some "flat" /\ chktype ∈ [Some "trace"; Some "pixelflat"]) ->
  UpdateMasters sc det ftype chktype w = (Raise IndexError, w).
Proof.
  intros Hlen Hty. unfold UpdateMasters.
  rewrite (lookup_ge_None_2 _ _ Hlen).
  destruct Hty as [Hty|[-> Hsub]].
  - repeat (apply elem_of_cons in Hty as [->|Hty]; [reflexivity|]). inversion Hty.
  - repeat (apply elem_of_cons in Hsub as [->|Hsub]; [reflexivity|]). inversion Hsub.
Qed.

Lemma UpdateMasters_index_out_of_range_witness :
  UpdateMasters 3 1 (Some "flat") (Some "trace") arcs_permuted
  = (Raise IndexError, arcs_permuted).
Proof.
  apply (UpdateMasters_index_out_of_range 3 1 (Some "flat") (Some "trace") arcs_permuted).
  - simpl. lia.
  - right. split; [reflexivity|]. apply list_elem_of_here.
Defined.

End UpdateMastersInvariants.

(** ** Propagating twice *)

Section UpdateMastersTwice.

(** A loop in which no exposure passes the test changes nothing. *)
Lemma for_each_copy_at_idle sc det chkarr field fromtype totype numsci w idxs :
  (forall j, j ∈ idxs -> exists e,
      sciexp w !! j = Some e
      /\ array_equal chkarr (field e)
         && bool_decide (GetMasterFrame_nocopy e totype det = None) = false) ->
  for_each idxs (copy_at sc det chkarr field fromtype totype numsci) w = (Next, w).
Proof.
  induction idxs as [|i rest IH]; intros H; [reflexivity|].
  destruct (H i) as (e & Hi & Hg); [left|].
  cbn [for_each]. unfold copy_at at 1, copy_master. rewrite Hi, Hg.
  apply IH. intros j Hj. apply H. right. exact Hj.
Qed.

(** An exposure a loop has gone over no longer passes its test. *)
Lemma test_after_received lo hi chkarr field totype det m j e :
  (forall e0 fr, field (SetMasterFrame e0 fr totype det) = field e0) ->
  (lo <= j < hi)%nat ->
  array_equal chkarr (field (received lo hi chkarr field totype det m j e))
  && bool_decide (GetMasterFrame_nocopy
                    (received lo hi chkarr field totype det m j e) totype det = None)
  = false.
Proof.
  intros Hfield Hin. unfold received.
  rewrite (bool_decide_eq_true_2 (lo <= j < hi)%nat) by exact Hin. cbn [andb].
  destruct (array_equal chkarr (field e)
            && bool_decide (GetMasterFrame_nocopy e totype det = None)) eqn:Hg.
  - rewrite Hfield. unfold GetMasterFrame_nocopy. simpl. rewrite lookup_insert_eq.
    rewrite (bool_decide_eq_false_2 (Some m = None)) by discriminate.
    apply andb_false_r.
  - exact Hg.
Qed.

Lemma received_field lo hi chkarr field totype det m j e
    (g : ScienceExposure -> list Z) :
  (forall e0 fr, g (SetMasterFrame e0 fr totype det) = g e0) ->
  g (received lo hi chkarr field totype det m j e) = g e.
Proof.
  intros Hg. destruct (received_cases lo hi chkarr field totype det m j e) as [->| ->];
    [reflexivity|apply Hg].
Qed.

(** The test for one slot does not see a loop that wrote another slot. *)
Lemma test_through_other_slot lo hi chkarr field totype det m j e
    (g : ScienceExposure -> list Z) (ty : string) :
  (forall e0 fr, g (SetMasterFrame e0 fr totype det) = g e0) ->
  (ty, det) <> (totype, det) ->
  array_equal chkarr (g (received lo hi chkarr field totype det m j e))
  && bool_decide (GetMasterFrame_nocopy
                    (received lo hi chkarr field totype det m j e) ty det = None)
  = array_equal chkarr (g e) && bool_decide (GetMasterFrame_nocopy e ty det = None).
Proof.
  intros Hg Hne. f_equal.
  - rewrite received_field by exact Hg. reflexivity.
  - apply bool_decide_ext. unfold GetMasterFrame_nocopy.
    rewrite received_other_slot by exact Hne. reflexivity.
Qed.

Lemma plain_twice ftype chktype field sc det w esc m :
  (ftype = "arc" /\ field = _idx_arcs) \/ (ftype = "bias" /\ field = _idx_bias)
  \/ (ftype = "standard" /\ field = _idx_std) ->
  sciexp w !! sc = Some esc ->
  masters esc !! (ftype, det) = Some m ->
  exists w1,
    UpdateMasters sc det (Some ftype) chktype w = (Return, w1)
    /\ UpdateMasters sc det (Some ftype) chktype w1 = (Return, w1).
Proof.
  intros Hty Hsc Hm.
  destruct (UpdateMasters_plain ftype chktype field sc det w esc m Hty Hsc Hm)
    as (w1 & Hrun & Hfin).
  exists w1. split; [exact Hrun|].
  pose proof (lookup_lt_Some _ _ _ Hsc) as Hlt.
  pose proof (lookup_fmap_length _ _ _ Hfin) as Hlen.
  assert (Hsc1 : sciexp w1 !! sc = Some esc).
  { rewrite Hfin, Hsc. simpl. rewrite received_outside by lia. reflexivity. }
  assert (Hfield : forall e0 fr, field (SetMasterFrame e0 fr ftype det) = field e0).
  { destruct Hty as [[_ ->]|[[_ ->]|[_ ->]]]; reflexivity. }
  assert (Hidle : for_each (seq (sc + 1) (length (sciexp w1) - (sc + 1)))
                    (copy_at sc det (field esc) field ftype ftype (length (sciexp w1))) w1
                  = (Next, w1)).
  { apply for_each_copy_at_idle. intros j Hj.
    apply list_elem_of_In, in_seq in Hj.
    destruct (lookup_lt_is_Some_2 (sciexp w) j ltac:(lia)) as [e He].
    eexists. split; [rewrite Hfin, He; reflexivity|].
    apply test_after_received; [exact Hfield|lia]. }
  destruct Hty as [[-> ->]|[[-> ->]|[-> ->]]];
    unfold UpdateMasters; cbn [arg_is String.eqb Ascii.eqb Bool.eqb]; rewrite Hsc1;
    unfold propagate_plain; unfold range;
    (erewrite for_each_ext; [rewrite Hidle; reflexivity|]);
    intros i w0; reflexivity.
Qed.

Lemma flat_twice s fs o fo sc det w esc m :
  flat_pair s fs o fo ->
  sciexp w !! sc = Some esc ->
  masters esc !! (s, det) = Some m ->
  exists w1,
    UpdateMasters sc det (Some "flat") (Some s) w = (Return, w1)
    /\ UpdateMasters sc det (Some "flat") (Some s) w1 = (Return, w1).
Proof.
  intros Hp Hsc Hm.
  destruct (UpdateMasters_flat s fs o fo sc det w esc m Hp Hsc Hm)
    as (w1 & Hrun & Hfin).
  exists w1. split; [exact Hrun|].
  pose proof (lookup_lt_Some _ _ _ Hsc) as Hlt.
  pose proof (lookup_fmap_length _ _ _ Hfin) as Hlen.
  set (n := length (sciexp w)) in *.
  assert (Hso : (s, det) <> (o, det)) by (destruct Hp; congruence).
  assert (Hfs_s : forall e0 fr, fs (SetMasterFrame e0 fr s det) = fs e0)
    by (destruct Hp; reflexivity).
  assert (Hfs_o : forall e0 fr, fs (SetMasterFrame e0 fr o det) = fs e0)
    by (destruct Hp; reflexivity).
  assert (Hfo_o : forall e0 fr, fo (SetMasterFrame e0 fr o det) = fo e0)
    by (destruct Hp; reflexivity).
  assert (Hsc1 : exists esc1, sciexp w1 !! sc = Some esc1 /\ fs esc1 = fs esc).
  { eexists. split; [rewrite Hfin, Hsc; reflexivity|].
    rewrite received_field by exact Hfs_o.
    rewrite received_outside by lia. reflexivity. }
  destruct Hsc1 as (esc1 & Hsc1 & Hfs1).
  assert (Hidle1 : for_each (seq (sc + 1) (length (sciexp w1) - (sc + 1)))
                     (copy_at sc det (fs esc1) fs s s (length (sciexp w1))) w1
                   = (Next, w1)).
  { apply for_each_copy_at_idle. intros j Hj.
    apply list_elem_of_In, in_seq in Hj.
    destruct (lookup_lt_is_Some_2 (sciexp w) j ltac:(lia)) as [e He].
    eexists. split; [rewrite Hfin, He; reflexivity|].
    rewrite Hfs1.
    rewrite (test_through_other_slot sc n (fs esc) fo o det m j _ fs s)
      by (exact Hfs_o || exact Hso).
    apply test_after_received; [exact Hfs_s|lia]. }
  assert (Hidle2 : for_each (seq sc (length (sciexp w1) - sc))
                     (copy_at sc det (fs esc1) fo s o (length (sciexp w1))) w1
                   = (Next, w1)).
  { apply for_each_copy_at_idle. intros j Hj.
    apply list_elem_of_In, in_seq in Hj.
    destruct (lookup_lt_is_Some_2 (sciexp w) j ltac:(lia)) as [e He].
    eexists. split; [rewrite Hfin, He; reflexivity|].
    rewrite Hfs1. apply test_after_received; [exact Hfo_o|lia]. }
  destruct Hp;
    unfold UpdateMasters; cbn [arg_is String.eqb Ascii.eqb Bool.eqb]; rewrite Hsc1;
    unfold propagate_flat; unfold range;
    (erewrite for_each_ext; [rewrite Hidle1|intros i w0; reflexivity]);
    unfold other_subtype; cbn [String.eqb Ascii.eqb Bool.eqb];
    (erewrite for_each_ext; [rewrite Hidle2; reflexivity|intros i w0; reflexivity]).
Qed.

(** X6: propagation is idempotent. For a recognised type whose master the
    current exposure holds, the call returns, and the same call made again
    on the state it leaves returns with that state unchanged: no exposure
    is written and nothing is logged the second time. *)
Theorem UpdateMasters_idempotent ftype chktype field slot sc det w esc m :
  calib ftype chktype field slot ->
  sciexp w !! sc = Some esc ->
  GetMasterFrame_nocopy esc slot det = Some m ->
  exists w1,
    UpdateMasters sc det ftype chktype w = (Return, w1)
    /\ UpdateMasters sc det ftype chktype w1 = (Return, w1).
Proof.
  unfold GetMasterFrame_nocopy. intros Hc Hsc Hm. destruct Hc.
  - eapply plain_twice; eauto.
  - eapply plain_twice; eauto.
  - eapply plain_twice; eauto 6.
  - eapply flat_twice; eauto using flat_trace.
  - eapply flat_twice; eauto using flat_pixelflat.
Qed.

(** The trace master of [shared_flats], propagated twice. *)
Lemma UpdateMasters_idempotent_witness :
  exists w1,
    UpdateMasters 0 1 (Some "flat") (Some "trace") shared_flats = (Return, w1)
    /\ UpdateMasters 0 1 (Some "flat") (Some "trace") w1 = (Return, w1).
Proof.
  apply (UpdateMasters_idempotent (Some "flat") (Some "trace") _idx_trace "trace" 0 1
           shared_flats
           (exposure [] [] [4; 5]%Z [7]%Z {[ ("trace", 1%Z) := frame1 ]}) frame1).
  - apply calib_trace.
  - reflexivity.
  - vm_compute. reflexivity.
Defined.

End UpdateMastersTwice.

(** ** The boxcar pass as a whole *)

Section BoxcarPass.

Context {ny nx nobj : nat}.
Variable fit : vec float nx -> vec (vec float nx) ny -> vec (vec float nx) ny -> Z
               -> vec (vec float nx) ny.
Variables (slf : @Slf ny nx) (det : Z).
Variables (sciframe varframe skyframe cr_mask : vec (vec float nx) ny).
Variable scitrace : @Scitrace ny nx nobj.

Lemma any_true_false_inv (sel : vec bool ny) :
  any_true sel = false -> forall r, sel !!! r = false.
Proof.
  intros H r. destruct (sel !!! r) eqn:E; [|reflexivity].
  rewrite (any_true_true sel r E) in H. discriminate.
Qed.

(** What a body that ends normally has done. *)
Lemma boxcar_object_Ok o bgcorr (st : pass) b st' :
  boxcar_object fit slf det sciframe varframe skyframe cr_mask scitrace o (bgcorr, st)
  = (Ok b, st') ->
  exists mswave bpix so,
    pyindex (_mswave slf) (det - 1) = Ok mswave
    /\ pyindex (_bpix slf) (det - 1) = Ok bpix
    /\ specobjs st !! fin_to_nat o = Some so
    /\ check_trace so (slice2 (traces scitrace) o) = true
    /\ (forall r, isnan (s_scisum (boxcar_sums fit mswave bpix sciframe varframe skyframe
                                     cr_mask scitrace (2 ^ 0) (2 ^ 1) o) !!! r) = false)
    /\ b = update_bgcorr scitrace o (bgframe_of fit sciframe cr_mask scitrace o) bgcorr
    /\ specobjs st'
       = <[fin_to_nat o :=
             let s := boxcar_sums fit mswave bpix sciframe varframe skyframe cr_mask
                        scitrace (2 ^ 0) (2 ^ 1) o in
             fill so (s_wvsum s) (s_scisum s) (s_varsum s) (s_skysum s) (s_boxmask s)]>
         (specobjs st).
Proof.
  unfold boxcar_object.
  destruct (pyindex (_mswave slf) (det - 1)) as [mswave|]; [|discriminate].
  destruct (pyindex (_bpix slf) (det - 1)) as [bpix|]; [|discriminate].
  rewrite mask_flags_bad_pix, mask_flags_CR.
  set (s := boxcar_sums fit mswave bpix sciframe varframe skyframe cr_mask scitrace
              (2 ^ 0) (2 ^ 1) o).
  destruct (any_true (vmap isnan (s_scisum s))) eqn:Hnan.
  { rewrite mask_flags_NANs. discriminate. }
  cbn [say specobjs].
  destruct (specobjs st !! fin_to_nat o) as [so|] eqn:Hso; [|discriminate].
  destruct (check_trace so (slice2 (traces scitrace) o)) eqn:Hchk; cbn [negb];
    [|discriminate].
  intros H. inversion H; subst; clear H.
  exists mswave, bpix, so. repeat split; try reflexivity; try assumption.
  intros r. pose proof (any_true_false_inv _ Hnan r) as Hr.
  rewrite vlookup_map in Hr. exact Hr.
Qed.


End BoxcarPass.



(** ** The background-correction image *)

Section BackgroundCorrection.

Context {ny nx nobj : nat}.
Variable fit : vec float nx -> vec (vec float nx) ny -> vec (vec float nx) ny -> Z
               -> vec (vec float nx) ny.

Lemma pixel_update_bgcorr (scitrace : @Scitrace ny nx nobj) o
    (bgframe bgcorr : vec (vec float nx) ny) r x :
  pixel (update_bgcorr scitrace o bgframe bgcorr) r x
  = if covers scitrace r x o then pixel bgframe r x else pixel bgcorr r x.
Proof.
  unfold update_bgcorr, pixel, covers, voxel, img2, slice3.
  rewrite !vlookup_zip_with, !vlookup_map. reflexivity.
Qed.

Lemma boxcar_loop_bgcorr (slf : @Slf ny nx) det sciframe varframe skyframe cr_mask
    (scitrace : @Scitrace ny nx nobj) r x (objs : list (fin nobj)) :
  forall bgcorr (st : pass) b st',
    boxcar_loop (boxcar_object fit slf det sciframe varframe skyframe cr_mask scitrace)
                objs (bgcorr, st) = (Ok b, st') ->
    pixel b r x
    = match last (filter (fun o => covers scitrace r x o = true) objs) with
      | Some o => pixel (bgframe_of fit sciframe cr_mask scitrace o) r x
      | None => pixel bgcorr r x
      end.
Proof.
  induction objs as [|o rest IH]; intros bgcorr st b st' Hrun.
  - simpl in Hrun. inversion Hrun; subst. reflexivity.
  - cbn [boxcar_loop] in Hrun.
    destruct (boxcar_object fit slf det sciframe varframe skyframe cr_mask scitrace o
                (bgcorr, st)) as [[b1|e1] st1] eqn:Hbody; [|discriminate].
    destruct (boxcar_object_Ok _ _ _ _ _ _ _ _ _ _ _ _ _ Hbody)
      as (_ & _ & _ & _ & _ & _ & _ & _ & -> & _).
    rewrite (IH _ _ _ _ Hrun). rewrite filter_cons.
    destruct (decide (covers scitrace r x o = true)) as [Hc|Hc].
    + rewrite last_cons.
      destruct (last (filter (fun o0 => covers scitrace r x o0 = true) rest));
        [reflexivity|].
      rewrite pixel_update_bgcorr, Hc. reflexivity.
    + destruct (last (filter (fun o0 => covers scitrace r x o0 = true) rest));
        [reflexivity|].
      rewrite pixel_update_bgcorr.
      destruct (covers scitrace r x o); [contradiction|reflexivity].
Qed.

(** X8: in the image a boxcar pass returns, a pixel that lies in the
    aperture or background region of some object holds the background
    fitted for the last such object, and a pixel that lies in none holds
    zero. *)
Theorem boxcar_bgcorr_last_object_wins (slf : @Slf ny nx) det
    (sciframe varframe skyframe : vec (vec float nx) ny) (crmask : vec (vec Z nx) ny)
    (scitrace : @Scitrace ny nx nobj) (st : pass) bgcorr st' r x :
  boxcar fit slf det sciframe varframe skyframe crmask scitrace st = (Ok bgcorr, st') ->
  pixel bgcorr r x
  = match last (filter (fun o => covers scitrace r x o = true) (fin_enum nobj)) with
    | Some o => pixel (bgframe_of fit sciframe (good_pixels crmask) scitrace o) r x
    | None => fzero
    end.
Proof.
  unfold boxcar. intros Hrun.
  rewrite (boxcar_loop_bgcorr _ _ _ _ _ _ _ r x _ _ _ _ _ Hrun).
  destruct (last _); [reflexivity|].
  unfold pixel. rewrite !vlookup_map. reflexivity.
Qed.

End BackgroundCorrection.

(** In [two_objects_run] the second pixel lies in the regions of both
    objects, whose fitted backgrounds there are 2 and 4: the image returned
    holds 4, the background of the second object. The first pixel, in the
    region of the first object only, holds its background, 6, and the third
    pixel holds zero. *)
Lemma boxcar_bgcorr_last_object_wins_witness :
  two_objects_run.1 = Ok [# [# of_Z 6; of_Z 4; fzero] ]
  /\ filter (fun o => covers two_objects_trace 0%fin 1%fin o = true) (fin_enum 2)
     = [0%fin; 1%fin]
  /\ pixel [# [# of_Z 6; of_Z 4; fzero] ] 0%fin 1%fin
     = match last (filter (fun o => covers two_objects_trace 0%fin 1%fin o = true)
                          (fin_enum 2)) with
       | Some o => pixel (bgframe_of weighted_fit (flat_image (of_Z 2))
                            (good_pixels [# [# 0; 0; 0] ]%Z) two_objects_trace o)
                         0%fin 1%fin
       | None => fzero
       end.
Proof.
  split; [vm_compute; reflexivity|]. split; [vm_compute; reflexivity|].
  apply (boxcar_bgcorr_last_object_wins weighted_fit one_detector 1 (flat_image (of_Z 2))
           (flat_image (of_Z 2)) (flat_image (of_Z 2)) [# [# 0; 0; 0] ]%Z
           two_objects_trace {| specobjs := [fresh_specobj; fresh_specobj]; plog := [] |}
           [# [# of_Z 6; of_Z 4; fzero] ] two_objects_run.2 0%fin 1%fin).
  vm_compute. reflexivity.
Defined.

(** ** Failures of the boxcar pass *)

(** X9: a NaN in the summed flux of an object is not flagged: once the
    detector's images are found, the body of the loop warns and then fails
    on the key ["NANs"], which [mask_flags] does not have; nothing is
    stored for the object. *)
Theorem boxcar_nan_flux_is_KeyError {ny nx nobj}
    (fit : vec float nx -> vec (vec float nx) ny -> vec (vec float nx) ny -> Z
           -> vec (vec float nx) ny)
    (slf : @Slf ny nx) (det : Z)
    (sciframe varframe skyframe cr_mask mswave bpix : vec (vec float nx) ny)
    (scitrace : @Scitrace ny nx nobj) (o : fin nobj) bgcorr (st : pass) r :
  pyindex (_mswave slf) (det - 1) = Ok mswave ->
  pyindex (_bpix slf) (det - 1) = Ok bpix ->
  isnan (s_scisum (boxcar_sums fit mswave bpix sciframe varframe skyframe cr_mask
                     scitrace (2 ^ 0) (2 ^ 1) o) !!! r) = true ->
  exists st',
    boxcar_object fit slf det sciframe varframe skyframe cr_mask scitrace o (bgcorr, st)
    = (Error (KeyError "NANs"), st')
    /\ specobjs st' = specobjs st
    /\ last (plog st') = Some (Warn "   NANs in the spectrum somehow..").
Proof.
  intros Hwave Hbpix Hnan. unfold boxcar_object.
  rewrite Hwave, Hbpix, mask_flags_bad_pix, mask_flags_CR.
  rewrite (any_true_true _ r) by (rewrite vlookup_map; exact Hnan).
  rewrite mask_flags_NANs. eexists. split; [reflexivity|]. split; [reflexivity|].
  cbn [say plog]. apply last_snoc.
Qed.

(** The order of the additions decides whether a row sums to NaN:
    [overflow_row] taken from left to right sums to [+inf], while its sum
    as numpy takes it, two by two, is [inf + (-inf)], NaN. *)
Lemma row_sum_order_matters :
  fold_left fadd (vec_to_list overflow_row) fzero = S754_infinity false
  /\ row_sum overflow_row = S754_nan.
Proof. vm_compute. auto. Qed.

(** A science frame whose one row is [overflow_row], all of it in the
    aperture: every value is finite and the summed flux of the row is
    NaN. *)
Lemma boxcar_nan_flux_is_KeyError_witness :
  exists st',
    boxcar_object zero_fit one_detector 1 [# overflow_row] (flat_image (of_Z 2))
      (flat_image (of_Z 2)) (flat_image fone) eight_pixel_trace 0%fin
      (flat_image fzero, fresh_pass)
    = (Error (KeyError "NANs"), st')
    /\ specobjs st' = specobjs (@fresh_pass 1)
    /\ last (plog st') = Some (Warn "   NANs in the spectrum somehow..").
Proof.
  apply (boxcar_nan_flux_is_KeyError zero_fit one_detector 1 [# overflow_row]
           (flat_image (of_Z 2)) (flat_image (of_Z 2)) (flat_image fone)
           (flat_image (of_Z 2)) (flat_image fzero) eight_pixel_trace 0%fin
           (flat_image fzero) fresh_pass 0%fin).
  - reflexivity.
  - reflexivity.
  - vm_compute. reflexivity.
Defined.

Lemma fmul_zero_finite (v w : float) :
  is_zero v -> is_finite w -> is_zero (fmul v w).
Proof. destruct v, w; simpl; tauto. Qed.

Section BoxcarFailures.

Context {ny nx nobj : nat}.
Variable fit : vec float nx -> vec (vec float nx) ny -> vec (vec float nx) ny -> Z
               -> vec (vec float nx) ny.
Variables (slf : @Slf ny nx) (det : Z).
Variables (sciframe varframe skyframe cr_mask mswave bpix : vec (vec float nx) ny).
Variable scitrace : @Scitrace ny nx nobj.
Variable o : fin nobj.


(** The bad-pixel bit of a row is set exactly when the row's sum of
    [weight * bpix] is positive. *)
Lemma boxcar_sums_bad_pix_bit r :
  Z.testbit (s_boxmask (boxcar_sums fit mswave bpix sciframe varframe skyframe cr_mask
                          scitrace (2 ^ 0) (2 ^ 1) o) !!! r) 0
  = fgt (sum_axis1 (img2 fmul (slice3 (object scitrace) o) bpix) !!! r) fzero.
Proof.
  cbn [boxcar_sums s_boxmask]. unfold add_flag.
  rewrite !vlookup_zip_with, vlookup_replicate, !vlookup_map.
  destruct (fgt _ fzero), (fgt _ fzero); reflexivity.
Qed.

(** X11: the bad-pixel flag has no false positive. On a row where no pixel
    of the aperture is bad (at every pixel the weight is zero and the
    bad-pixel value finite, or the weight finite and the bad-pixel value
    zero), the bad-pixel bit of the mask computed for the row is clear. *)
Theorem boxcar_clean_row_not_flagged_bad r :
  (forall x, (is_zero (voxel (object scitrace) r x o) /\ is_finite (pixel bpix r x))
             \/ (is_finite (voxel (object scitrace) r x o) /\ is_zero (pixel bpix r x))) ->
  Z.testbit (s_boxmask (boxcar_sums fit mswave bpix sciframe varframe skyframe cr_mask
                          scitrace (2 ^ 0) (2 ^ 1) o) !!! r) 0
  = false.
Proof.
  intros Hclean. rewrite boxcar_sums_bad_pix_bit, lookup_sum_axis1.
  rewrite row_sum_zeros; [reflexivity|].
  intros x. rewrite vlookup_zip_with.
  pose proof (lookup_slice3 (object scitrace) o r x) as E. unfold pixel in E.
  rewrite E. destruct (Hclean x) as [[Hw Hb]|[Hw Hb]].
  - apply fmul_zero_finite; assumption.
  - apply fmul_finite_zero; assumption.
Qed.

End BoxcarFailures.


(** A bad pixel at the start of the second row, outside the aperture of
    [upper_row_trace]. *)
Lemma boxcar_clean_row_not_flagged_bad_witness :
  Z.testbit (s_boxmask (boxcar_sums zero_fit (flat_image (of_Z 2))
                          [# [# fzero; fzero]; [# fone; fzero] ]
                          (flat_image (of_Z 2)) (flat_image (of_Z 2))
                          (flat_image (of_Z 2)) (flat_image fone) upper_row_trace
                          (2 ^ 0) (2 ^ 1) 0%fin) !!! 1%fin) 0
  = false.
Proof.
  apply (boxcar_clean_row_not_flagged_bad zero_fit (flat_image (of_Z 2))
           (flat_image (of_Z 2)) (flat_image (of_Z 2)) (flat_image fone)
           (flat_image (of_Z 2)) [# [# fzero; fzero]; [# fone; fzero] ]
           upper_row_trace 0%fin 1%fin).
  intros x. left. inv_fin x; [split; exact I|]. intros x.
  inv_fin x; [split; exact I|]. intros x. inv_fin x.
Defined.

(** ** The detector index *)

Lemma pyindex_zero_wraps {A} (l : list A) :
  pyindex l (0 - 1) = pyindex l (Z.of_nat (length l) - 1).
Proof.
  unfold pyindex. destruct l as [|a l]; [reflexivity|].
  set (n := Z.of_nat (length (a :: l))).
  assert (Hn : (1 <= n)%Z) by (subst n; simpl length; lia).
  change (0 - 1 <? 0)%Z with true. cbv iota.
  destruct (Z.ltb_spec (n - 1) 0); [lia|].
  replace (0 - 1 + n)%Z with (n - 1)%Z by lia. reflexivity.
Qed.

Lemma boxcar_loop_ext {ny nx nobj}
    (body1 body2 : fin nobj -> vec (vec float nx) ny * @pass ny
                   -> result (vec (vec float nx) ny) * @pass ny) :
  (forall o acc, body1 o acc = body2 o acc) ->
  forall objs acc, boxcar_loop body1 objs acc = boxcar_loop body2 objs acc.
Proof.
  intros H objs. induction objs as [|o rest IH]; intros acc; [reflexivity|].
  cbn [boxcar_loop]. rewrite H. destruct (body2 o acc) as [[b|e] st]; auto.
Qed.

(** X12: the detector index 0 is not refused: [det - 1] is then -1, which
    Python reads from the end, so that with as many wavelength images as
    bad-pixel images a pass for detector 0 is the pass for the last
    detector. *)
Theorem boxcar_detector_zero_is_last {ny nx nobj}
    (fit : vec float nx -> vec (vec float nx) ny -> vec (vec float nx) ny -> Z
           -> vec (vec float nx) ny)
    (slf : @Slf ny nx) (sciframe varframe skyframe : vec (vec float nx) ny)
    (crmask : vec (vec Z nx) ny) (scitrace : @Scitrace ny nx nobj) (st : pass) :
  length (_bpix slf) = length (_mswave slf) ->
  boxcar fit slf 0 sciframe varframe skyframe crmask scitrace st
  = boxcar fit slf (Z.of_nat (length (_mswave slf))) sciframe varframe skyframe crmask
           scitrace st.
Proof.
  intros Hlen. unfold boxcar. apply boxcar_loop_ext. intros o [bgcorr st0].
  unfold boxcar_object.
  rewrite !pyindex_zero_wraps, Hlen. reflexivity.
Qed.

Lemma boxcar_detector_zero_is_last_witness :
  boxcar zero_fit one_detector 0 (flat_image (of_Z 2)) (flat_image (of_Z 2))
         (flat_image (of_Z 2)) [# [# 0; 0]; [# 0; 0] ]%Z upper_row_trace fresh_pass
  = empty_row_run.
Proof.
  apply (boxcar_detector_zero_is_last zero_fit one_detector (flat_image (of_Z 2))
           (flat_image (of_Z 2)) (flat_image (of_Z 2)) [# [# 0; 0]; [# 0; 0] ]%Z
           upper_row_trace fresh_pass).
  reflexivity.
Defined.

(** ** What [SetupScience] does to the outside *)

Section SetupScienceEvents.

Context {SetupDict : Type}.
Implicit Types (P : @event SetupDict -> Prop).

Lemma emits_done_with {A} P (a : A) : emits P (done_with a).
Proof.
  intros tr r tr' H. inversion H; subst. exists []. rewrite app_nil_r. auto.
Qed.

Lemma emits_raise {A} P e : emits P (@raise SetupDict A e).
Proof.
  intros tr r tr' H. inversion H; subst. exists []. rewrite app_nil_r. auto.
Qed.

Lemma emits_lift {A} P (x : result A) : emits P (@lift SetupDict A x).
Proof.
  intros tr r tr' H. inversion H; subst. exists []. rewrite app_nil_r. auto.
Qed.

Lemma emits_tell P ev : P ev -> emits P (tell ev).
Proof.
  intros Hev tr r tr' H. inversion H; subst. exists [ev]. auto.
Qed.

Lemma emits_and_then {A B} P (m : run A) (k : A -> run B) :
  emits P m -> (forall a, emits P (k a)) -> emits P (and_then m k).
Proof.
  intros Hm Hk tr r tr' H. unfold and_then in H.
  destruct (m tr) as [[a|e] tr1] eqn:Hrun.
  - destruct (Hm _ _ _ Hrun) as (evs1 & -> & H1).
    destruct (Hk a _ _ _ H) as (evs2 & -> & H2).
    exists (evs1 ++ evs2). rewrite app_assoc. split; [reflexivity|].
    apply Forall_app; auto.
  - inversion H; subst. eauto.
Qed.

Lemma emits_for_run {A S} P (body : S -> A -> run S) (l : list A) :
  (forall s x, emits P (body s x)) -> forall s, emits P (for_run body l s).
Proof.
  intros Hbody. induction l as [|x rest IH]; intros s; simpl.
  - apply emits_done_with.
  - apply emits_and_then; [apply Hbody|]. intros s'. apply IH.
Qed.

Lemma emits_weaken {A} P (Q : @event SetupDict -> Prop) (m : run A) :
  (forall ev, P ev -> Q ev) -> emits P m -> emits Q m.
Proof.
  intros HPQ Hm tr r tr' H. destruct (Hm _ _ _ H) as (evs & -> & HP).
  exists evs. split; [reflexivity|]. eapply Forall_impl; eauto.
Qed.

Variable instr_setup : Z -> Z -> Fitsdict -> SetupDict -> string * SetupDict.
Variable new_ScienceExposure : nat -> Fitsdict -> bool -> ScienceExposure.
Variable int_of_string : string -> option Z.

Lemma select_science_quiet settings fitsdict do_qa acc i :
  emits quiet (select_science instr_setup new_ScienceExposure settings fitsdict do_qa acc i).
Proof.
  unfold select_science. destruct acc as [[sciexp scii] prev].
  apply emits_and_then.
  - destruct (reduce_setup settings) as [wanted|]; [|apply emits_done_with].
    destruct prev as [prev|]; [|apply emits_raise].
    destruct (instr_setup (Z.of_nat i) 1 fitsdict prev) as [setup prev'].
    case_bool_decide; [apply emits_done_with|].
    apply emits_and_then; [apply emits_tell; exact I|].
    intros _. apply emits_done_with.
  - intros [[|] prev'].
    + apply emits_and_then; [apply emits_tell; exact I|].
      intros _. apply emits_done_with.
    + apply emits_done_with.
Qed.

Lemma group_exposure_quiet settings fitsdict keys sciexp scii acc sc :
  emits quiet (group_exposure instr_setup int_of_string settings fitsdict keys sciexp
                 scii acc sc).
Proof.
  unfold group_exposure. destruct acc as [setup_dict group_dict].
  apply emits_and_then; [apply emits_lift|]. intros e.
  apply emits_and_then; [apply emits_lift|]. intros scidx.
  apply emits_and_then; [apply emits_lift|]. intros i.
  destruct (instr_setup (Z.of_nat i) 1 fitsdict setup_dict) as [setup setup_dict'].
  apply emits_and_then; [apply emits_tell; exact I|]. intros _.
  apply emits_and_then.
  - apply emits_for_run. intros vals k.
    destruct (int_of_string setup); [apply emits_done_with|apply emits_raise].
  - intros setup_val. apply emits_for_run. intros [sd gd] kk.
    destruct (instr_setup (Z.of_nat sc) (Z.of_nat kk + 1) fitsdict sd) as [x sd'].
    destruct (kk =? 0)%nat; [|apply emits_done_with].
    apply emits_and_then; [apply emits_lift|]. intros g.
    apply emits_and_then; [apply emits_lift|]. intros g'.
    apply emits_done_with.
Qed.

Lemma quiet_allowed settings nexist (ev : @event SetupDict) :
  quiet ev -> allowed_event settings nexist ev.
Proof. destruct ev; simpl; tauto. Qed.

Variable empty_setup : SetupDict.
Variable load_setup : SetupDict.
Variable sort_data : Fitsdict -> bool -> list (string * list Z).

Lemma SetupScience_emits settings fitsdict setup_file nexist :
  emits (allowed_event settings nexist)
    (SetupScience empty_setup instr_setup (setup_file, nexist) load_setup sort_data
       new_ScienceExposure int_of_string settings fitsdict).
Proof.
  unfold SetupScience.
  apply emits_and_then.
  { destruct (reduce_setup settings); [|apply emits_done_with].
    destruct (nexist =? 0)%Z; [apply emits_raise|apply emits_done_with]. }
  intros _. apply emits_and_then; [apply emits_tell; exact I|].
  intros _. apply emits_and_then.
  { destruct (output_sorted settings) eqn:E; [|apply emits_done_with].
    apply emits_tell. simpl. congruence. }
  intros _. apply emits_and_then; [apply emits_tell; exact I|].
  intros _. apply emits_and_then.
  { destruct (run_calcheck settings) eqn:E; simpl; [apply emits_done_with|].
    apply emits_tell. simpl. exact E. }
  intros _. apply emits_and_then.
  { destruct (list_find _ _) as [[n kv]|]; [apply emits_done_with|apply emits_raise]. }
  intros science. apply emits_and_then.
  { apply emits_for_run. intros acc i.
    eapply emits_weaken; [apply quiet_allowed|apply select_science_quiet]. }
  intros [[sciexp scii] prev]. apply emits_and_then.
  { apply emits_for_run. intros acc sc.
    eapply emits_weaken; [apply quiet_allowed|apply group_exposure_quiet]. }
  intros [setup_dict group_dict]. apply emits_and_then.
  { destruct (Z.eqb_spec nexist 0); [|apply emits_done_with].
    apply emits_tell. simpl. assumption. }
  intros _. apply emits_and_then; [apply emits_tell; exact I|].
  intros _. destruct (run_calcheck settings); [|apply emits_done_with].
  apply emits_and_then; [apply emits_tell; exact I|]. intros _.
  apply emits_and_then; [apply emits_tell; exact I|]. intros _.
  apply emits_and_then; [apply emits_tell; exact I|]. intros _.
  apply emits_raise.
Qed.

(** X17: whatever its input and however it ends, [SetupScience] only adds
    to what has been done before, and it makes the target directories only
    outside the calibration check, writes the list of sorted files only
    when [output sorted] is set, and writes the setup file only when none
    existed. *)
Theorem SetupScience_side_effects settings fitsdict setup_file nexist tr :
  exists evs,
    (SetupScience empty_setup instr_setup (setup_file, nexist) load_setup sort_data
       new_ScienceExposure int_of_string settings fitsdict tr).2 = tr ++ evs
    /\ Forall (allowed_event settings nexist) evs.
Proof.
  destruct (SetupScience empty_setup instr_setup (setup_file, nexist) load_setup sort_data
              new_ScienceExposure int_of_string settings fitsdict tr) as [r tr'] eqn:H.
  exact (SetupScience_emits settings fitsdict setup_file nexist _ _ _ H).
Qed.

End SetupScienceEvents.

(** ** What [SetupScience] returns *)

Section SetupScienceResult.

Context {SetupDict : Type}.
Variable empty_setup : SetupDict.
Variable instr_setup : Z -> Z -> Fitsdict -> SetupDict -> string * SetupDict.
Variable load_setup : SetupDict.
Variable sort_data : Fitsdict -> bool -> list (string * list Z).
Variable new_ScienceExposure : nat -> Fitsdict -> bool -> ScienceExposure.
Variable int_of_string : string -> option Z.

Implicit Types (tr : list (@event SetupDict)).

Lemma and_then_Ok {A B} (m : @run SetupDict A) (k : A -> run B) tr x tr' :
  and_then m k tr = (Ok x, tr') ->
  exists a tr1, m tr = (Ok a, tr1) /\ k a tr1 = (Ok x, tr').
Proof.
  unfold and_then. destruct (m tr) as [[a|e] tr1]; [eauto|discriminate].
Qed.

Lemma and_then_Ok_emits {A B} P (m : @run SetupDict A) (k : A -> run B) tr x tr' :
  emits P m ->
  and_then m k tr = (Ok x, tr') ->
  exists a evs, Forall P evs /\ k a (tr ++ evs) = (Ok x, tr').
Proof.
  intros Hm H. apply and_then_Ok in H as (a & tr1 & Hrun & Hk).
  destruct (Hm _ _ _ Hrun) as (evs & -> & HP). eauto.
Qed.

Lemma constructed_app (evs1 evs2 : list (@event SetupDict)) :
  constructed (evs1 ++ evs2) = constructed evs1 ++ constructed evs2.
Proof. apply omap_app. Qed.

Lemma constructed_no_construction (evs : list (@event SetupDict)) :
  Forall no_construction evs -> constructed evs = [].
Proof.
  induction 1 as [|ev evs Hev _ IH]; [reflexivity|].
  change (ev :: evs) with ([ev] ++ evs).
  rewrite constructed_app, IH. destruct ev; simpl in *; try reflexivity. contradiction.
Qed.

Lemma group_exposure_no_construction settings fitsdict keys sciexp scii acc sc :
  emits no_construction
    (group_exposure instr_setup int_of_string settings fitsdict keys sciexp scii acc sc).
Proof.
  unfold group_exposure. destruct acc as [setup_dict group_dict].
  apply emits_and_then; [apply emits_lift|]. intros e.
  apply emits_and_then; [apply emits_lift|]. intros scidx.
  apply emits_and_then; [apply emits_lift|]. intros i.
  destruct (instr_setup (Z.of_nat i) 1 fitsdict setup_dict) as [setup setup_dict'].
  apply emits_and_then; [apply emits_tell; exact I|]. intros _.
  apply emits_and_then.
  - apply emits_for_run. intros vals k.
    destruct (int_of_string setup); [apply emits_done_with|apply emits_raise].
  - intros setup_val. apply emits_for_run. intros [sd gd] kk.
    destruct (instr_setup (Z.of_nat sc) (Z.of_nat kk + 1) fitsdict sd) as [x sd'].
    destruct (kk =? 0)%nat; [|apply emits_done_with].
    apply emits_and_then; [apply emits_lift|]. intros g.
    apply emits_and_then; [apply emits_lift|]. intros g'.
    apply emits_done_with.
Qed.

(** One science frame: kept, with its exposure constructed, or skipped
    because of the setup filter. *)
Lemma select_science_Ok settings fitsdict do_qa sciexp scii prev i tr sciexp' scii' prev' tr' :
  select_science instr_setup new_ScienceExposure settings fitsdict do_qa
    (sciexp, scii, prev) i tr = (Ok (sciexp', scii', prev'), tr') ->
  exists evs, tr' = tr ++ evs
    /\ ((sciexp' = sciexp ++ [new_ScienceExposure i fitsdict do_qa]
         /\ scii' = scii ++ [i] /\ constructed evs = [i])
        \/ (sciexp' = sciexp /\ scii' = scii /\ constructed evs = []
            /\ reduce_setup settings <> None)).
Proof.
  unfold select_science, and_then, tell, done_with, raise.
  destruct (reduce_setup settings) as [wanted|].
  - destruct prev as [prev|]; [|discriminate].
    destruct (instr_setup (Z.of_nat i) 1 fitsdict prev) as [setup prev1].
    case_bool_decide as Hin; intros Hrun; inversion Hrun; subst; clear Hrun.
    + exists [NewScienceExposure i]. split; [reflexivity|]. left. auto.
    + eexists [_]. split; [reflexivity|]. right. repeat split; discriminate.
  - intros Hrun; inversion Hrun; subst; clear Hrun.
    exists [NewScienceExposure i]. split; [reflexivity|]. left. auto.
Qed.

Lemma select_loop_Ok settings fitsdict do_qa (idxs : list nat) :
  forall sciexp scii prev tr sciexp' scii' prev' tr',
    for_run (select_science instr_setup new_ScienceExposure settings fitsdict do_qa)
            idxs (sciexp, scii, prev) tr = (Ok (sciexp', scii', prev'), tr') ->
    exists kept evs,
      kept `sublist_of` idxs
      /\ scii' = scii ++ kept
      /\ sciexp' = sciexp ++ ((fun i => new_ScienceExposure i fitsdict do_qa) <$> kept)
      /\ (reduce_setup settings = None -> kept = idxs)
      /\ tr' = tr ++ evs
      /\ constructed evs = kept.
Proof.
  induction idxs as [|i rest IH]; intros sciexp scii prev tr sciexp' scii' prev' tr' H.
  - simpl in H. inversion H; subst. exists [], []. rewrite !app_nil_r.
    repeat split; auto.
  - cbn [for_run] in H. apply and_then_Ok in H as ([[se1 si1] p1] & tr1 & Hstep & Hrest).
    apply select_science_Ok in Hstep as (evs1 & -> & Hcase).
    apply IH in Hrest as (kept & evs & Hsub & -> & -> & Hall & -> & Hc).
    destruct Hcase as [(-> & -> & Hc1)|(-> & -> & Hc1 & Hf)].
    + exists (i :: kept), (evs1 ++ evs). rewrite constructed_app, Hc1, Hc.
      rewrite fmap_cons, <- !app_assoc. repeat split; auto.
      * apply sublist_skip. exact Hsub.
      * intros Hn. rewrite (Hall Hn). reflexivity.
    + exists kept, (evs1 ++ evs). rewrite constructed_app, Hc1, Hc.
      rewrite <- !app_assoc. repeat split; auto.
      * apply sublist_cons. exact Hsub.
      * intros Hn. contradiction.
Qed.

(** What a run that returns has done. *)
Lemma SetupScience_Ok_inv settings fitsdict setup_file nexist tr sciexp tr' :
  SetupScience empty_setup instr_setup (setup_file, nexist) load_setup sort_data
    new_ScienceExposure int_of_string settings fitsdict tr = (Ok sciexp, tr') ->
  exists science kept evs,
    science_frames (sort_data fitsdict (run_calcheck settings)) = Some science
    /\ kept `sublist_of` seq 0 (length science)
    /\ sciexp = (fun i => new_ScienceExposure i fitsdict true) <$> kept
    /\ (reduce_setup settings = None -> kept = seq 0 (length science))
    /\ tr' = tr ++ evs
    /\ constructed evs = kept
    /\ run_calcheck settings = false.
Proof.
  unfold SetupScience. intros H.
  apply (and_then_Ok_emits no_construction) in H as (_ & e1 & H1 & H).
  2:{ destruct (reduce_setup settings); [|apply emits_done_with].
      destruct (nexist =? 0)%Z; [apply emits_raise|apply emits_done_with]. }
  apply (and_then_Ok_emits no_construction) in H as (_ & e2 & H2 & H);
    [|apply emits_tell; exact I].
  apply (and_then_Ok_emits no_construction) in H as (_ & e3 & H3 & H).
  2:{ destruct (output_sorted settings); [apply emits_tell; exact I|apply emits_done_with]. }
  apply (and_then_Ok_emits no_construction) in H as (_ & e4 & H4 & H);
    [|apply emits_tell; exact I].
  apply (and_then_Ok_emits no_construction) in H as (_ & e5 & H5 & H).
  2:{ destruct (negb (run_calcheck settings));
        [apply emits_tell; exact I|apply emits_done_with]. }
  apply and_then_Ok in H as (science & tr0 & Hfind & H).
  assert (Hsci : science_frames (sort_data fitsdict (run_calcheck settings)) = Some science
                 /\ tr0 = (((((tr ++ e1) ++ e2) ++ e3) ++ e4) ++ e5)).
  { unfold science_frames.
    destruct (list_find _ _) as [[n kv]|]; [|discriminate].
    inversion Hfind; subst. split; reflexivity. }
  destruct Hsci as [Hsci ->].
  apply and_then_Ok in H as ([[se si] prev] & tr1 & Hsel & H).
  apply select_loop_Ok in Hsel as (kept & e7 & Hsub & -> & -> & Hall & -> & Hc).
  apply (and_then_Ok_emits no_construction) in H as ([sd gd] & e8 & H8 & H).
  2:{ apply emits_for_run. intros acc sc. apply group_exposure_no_construction. }
  apply (and_then_Ok_emits no_construction) in H as (_ & e9 & H9 & H).
  2:{ destruct (nexist =? 0)%Z; [apply emits_tell; exact I|apply emits_done_with]. }
  apply (and_then_Ok_emits no_construction) in H as (_ & e10 & H10 & H);
    [|apply emits_tell; exact I].
  destruct (run_calcheck settings) eqn:Hcal.
  { exfalso. unfold and_then, tell, raise in H. discriminate. }
  inversion H; subst; clear H.
  exists science, (constructed e7), (e1 ++ e2 ++ e3 ++ e4 ++ e5 ++ e7 ++ e8 ++ e9 ++ e10).
  split; [exact Hsci|].
  split; [exact Hsub|]. split; [reflexivity|]. split; [exact Hall|].
  split; [rewrite <- !app_assoc; reflexivity|]. split; [|reflexivity].
  rewrite !constructed_app.
  rewrite (constructed_no_construction _ H1), (constructed_no_construction _ H2),
    (constructed_no_construction _ H3), (constructed_no_construction _ H4),
    (constructed_no_construction _ H5),
    (constructed_no_construction _ H8), (constructed_no_construction _ H9),
    (constructed_no_construction _ H10).
  simpl. rewrite app_nil_r. reflexivity.
Qed.

(** X18: a run that returns has constructed its exposures from the science
    frames, in their order: the list returned holds, for an increasing
    selection of the indices of [filesort['science']], the exposure of each
    index, and these are exactly the exposures the run constructed; with no
    restriction on the setup every science frame is selected. *)
Theorem SetupScience_returns_kept_frames settings fitsdict setup_file nexist tr sciexp tr' :
  SetupScience empty_setup instr_setup (setup_file, nexist) load_setup sort_data
    new_ScienceExposure int_of_string settings fitsdict tr = (Ok sciexp, tr') ->
  exists science kept evs,
    science_frames (sort_data fitsdict (run_calcheck settings)) = Some science
    /\ kept `sublist_of` seq 0 (length science)
    /\ sciexp = (fun i => new_ScienceExposure i fitsdict true) <$> kept
    /\ (reduce_setup settings = None -> kept = seq 0 (length science))
    /\ tr' = tr ++ evs
    /\ constructed evs = kept.
Proof.
  intros H. apply SetupScience_Ok_inv in H
    as (science & kept & evs & H1 & H2 & H3 & H4 & H5 & H6 & _).
  exists science, kept, evs. auto 10.
Qed.

(** X19: in the calibration check ([calcheck] set) [SetupScience] never
    returns the list of exposures: whatever its input, it ends with an
    exception. *)
Theorem SetupScience_calcheck_never_returns settings fitsdict setup_file nexist tr :
  run_calcheck settings = true ->
  exists e,
    (SetupScience empty_setup instr_setup (setup_file, nexist) load_setup sort_data
       new_ScienceExposure int_of_string settings fitsdict tr).1 = Error e.
Proof.
  intros Hcal.
  destruct (SetupScience empty_setup instr_setup (setup_file, nexist) load_setup sort_data
              new_ScienceExposure int_of_string settings fitsdict tr)
    as [[sciexp|e] tr'] eqn:H; [|eauto].
  apply SetupScience_Ok_inv in H as (_ & _ & _ & _ & _ & _ & _ & _ & _ & Hno).
  congruence.
Qed.

End SetupScienceResult.

(** The run of [two_science_run] returns the exposures of its two science
    frames. *)
Lemma SetupScience_returns_kept_frames_witness :
  exists science kept evs,
    science_frames [("science", [0; 1]%Z); ("standard", [2]%Z); ("arc", [3]%Z);
                    ("dark", [])] = Some science
    /\ kept `sublist_of` seq 0 (length science)
    /\ [science_exposure 0 four_frames true; science_exposure 1 four_frames true]
       = (fun i => science_exposure i four_frames true) <$> kept
    /\ (reduce_setup two_science_settings = None -> kept = seq 0 (length science))
    /\ two_science_run.2 = [] ++ evs
    /\ constructed evs = kept.
Proof.
  apply (SetupScience_returns_kept_frames tt (fun _ _ _ d => ("01", d)) tt
           (fun _ _ => [("science", [0; 1]%Z); ("standard", [2]%Z); ("arc", [3]%Z);
                        ("dark", [])])
           science_exposure decimal two_science_settings four_frames "run.setup" 0%Z []
           [science_exposure 0 four_frames true; science_exposure 1 four_frames true]
           two_science_run.2).
  vm_compute. reflexivity.
Defined.

(** A calibration check on the frames of [two_science_run]. *)
Lemma SetupScience_calcheck_never_returns_witness :
  exists e,
    (SetupScience tt (fun _ _ _ d => ("01", d)) ("run.setup", 0%Z) tt
       (fun _ _ => [("science", [0; 1]%Z); ("standard", [2]%Z); ("arc", [3]%Z);
                    ("dark", [])])
       science_exposure decimal
       {| run_calcheck := true; reduce_setup := None; output_sorted := None;
          run_redname := "run.pypit"; mosaic_ndet := 1;
          spect_index := {[ "science" := [[0]; [1]]%Z;
                            "standard" := [[2]; [2]]%Z;
                            "arc" := [[3]; [3]]%Z ]} |}
       four_frames []).1 = Error e.
Proof.
  apply (SetupScience_calcheck_never_returns tt (fun _ _ _ d => ("01", d)) tt
           (fun _ _ => [("science", [0; 1]%Z); ("standard", [2]%Z); ("arc", [3]%Z);
                        ("dark", [])])
           science_exposure decimal _ four_frames "run.setup" 0%Z []).
  reflexivity.
Defined.

(** ** The group dictionary *)

Section GroupFacts.

Lemma grows_refl g : grows g g.
Proof.
  split; [reflexivity|]. intros k l H. exists []. rewrite app_nil_r. exact H.
Qed.

Lemma grows_trans g1 g2 g3 : grows g1 g2 -> grows g2 g3 -> grows g1 g3.
Proof.
  intros [Hd1 H1] [Hd2 H2]. split; [congruence|].
  intros k l Hk. destruct (H1 _ _ Hk) as (l1 & Hk1).
  destruct (H2 _ _ Hk1) as (l2 & Hk2). exists (l1 ++ l2).
  rewrite app_assoc. exact Hk2.
Qed.

Lemma append_to_grows (g g' : group) k x :
  append_to g k x = Ok g' ->
  grows g g' /\ forall k', k' <> k -> g' !! k' = g !! k'.
Proof.
  intros H. apply append_to_lookup in H as (l & v & Hl & _ & ->).
  split; [split|].
  - apply dom_insert_lookup_L. rewrite Hl. eauto.
  - intros k' l' Hk'. destruct (decide (k = k')) as [->|Hne].
    + exists [v]. rewrite lookup_insert_eq. congruence.
    + exists []. rewrite lookup_insert_ne by exact Hne. rewrite app_nil_r. exact Hk'.
  - intros k' Hne. apply lookup_insert_ne. congruence.
Qed.

(** One frame of the type [key] changes the lists of [key], [stdobj] and
    [sciobj] at most. *)
Lemma add_frame_grows fitsdict key scidx (g g' : group) idx :
  add_frame fitsdict key scidx g idx = Ok g' ->
  grows g g'
  /\ forall k, k <> key -> k <> "stdobj" -> k <> "sciobj" -> g' !! k = g !! k.
Proof.
  unfold add_frame. intros Hrun.
  destruct (pyindex (filename fitsdict) idx) as [fname|]; [|discriminate].
  simpl in Hrun. destruct (getitem g key) as [names|]; [|discriminate].
  simpl in Hrun.
  assert (Hfirst : exists g1,
    (if bool_decide (fname ∈ names) then Ok g
     else append_to g key (Ok fname)
          ≫= (fun g0 => if String.eqb key "standard"
                        then append_to g0 "stdobj" (pyindex (target fitsdict) idx)
                        else Ok g0)) = Ok g1
    /\ grows g g1
    /\ forall k, k <> key -> k <> "stdobj" -> k <> "sciobj" -> g1 !! k = g !! k).
  { destruct (bool_decide (fname ∈ names)).
    - exists g. split; [reflexivity|]. split; [apply grows_refl|reflexivity].
    - destruct (append_to g key (Ok fname)) as [g0|] eqn:H0; [|discriminate].
      simpl in *. apply append_to_grows in H0 as [Hg0 Ho0].
      destruct (String.eqb key "standard").
      + destruct (append_to g0 "stdobj" (pyindex (target fitsdict) idx)) as [g1|] eqn:H1;
          [|discriminate].
        exists g1. split; [reflexivity|].
        apply append_to_grows in H1 as [Hg1 Ho1]. split.
        * eapply grows_trans; eauto.
        * intros k Hk Hs _. rewrite Ho1, Ho0 by assumption. reflexivity.
      + exists g0. split; [reflexivity|]. split; [exact Hg0|].
        intros k Hk _ _. apply Ho0. exact Hk. }
  destruct Hfirst as (g1 & Hg1 & Hgrow & Hother). rewrite Hg1 in Hrun. simpl in Hrun.
  destruct (String.eqb key "science").
  - apply append_to_grows in Hrun as [Hg2 Ho2]. split.
    + eapply grows_trans; eauto.
    + intros k Hk Hs Hc. rewrite Ho2 by assumption. apply Hother; assumption.
  - inversion Hrun; subst. auto.
Qed.

Lemma for_result_invariant {A S} (R : S -> S -> Prop) (body : S -> A -> result S) :
  (forall s, R s s) -> (forall s1 s2 s3, R s1 s2 -> R s2 s3 -> R s1 s3) ->
  forall l,
    (forall s x s', x ∈ l -> body s x = Ok s' -> R s s') ->
    forall s s', for_result body l s = Ok s' -> R s s'.
Proof.
  intros Hrefl Htrans l. induction l as [|x rest IH]; intros Hbody s s' H; simpl in H.
  - inversion H; subst. apply Hrefl.
  - destruct (body s x) as [s1|] eqn:Hstep; [|discriminate]. simpl in H.
    eapply Htrans; [eapply Hbody; [left|exact Hstep]|].
    eapply IH; [|exact H]. intros s0 y s0' Hy. apply Hbody. right. exact Hy.
Qed.

(** X20: filling a group never creates or removes a key, and never removes
    or reorders a name: after [fill_group] the group has the same keys, under
    each key the old list followed by the names appended; the lists of the
    types [unknown] and [dark] are untouched. *)
Theorem fill_group_only_appends settings fitsdict keys sc scidx (g g' : group) :
  fill_group settings fitsdict keys sc scidx g = Ok g' ->
  dom g' = dom g
  /\ (forall k l, g !! k = Some l -> exists l', g' !! k = Some (l ++ l'))
  /\ g' !! "unknown" = g !! "unknown"
  /\ g' !! "dark" = g !! "dark".
Proof.
  intros H.
  assert (Hinv : unchanged_skipped g g').
  { unfold fill_group in H. revert H.
    apply (for_result_invariant unchanged_skipped).
    - intros s. split; [apply grows_refl|reflexivity].
    - intros s1 s2 s3 [H12 K12] [H23 K23]. split; [eapply grows_trans; eauto|].
      intros k Hk Hs Hc. rewrite K23, K12 by assumption. reflexivity.
    - intros s key s' _ Hstep.
      destruct (skipped_key key) eqn:Hskip.
      + inversion Hstep; subst. split; [apply grows_refl|reflexivity].
      + destruct (getitem (spect_index settings) key) as [spect_key|]; [|discriminate].
        simpl in Hstep.
        destruct (pyindex spect_key (Z.of_nat sc)) as [idxs|]; [|discriminate].
        simpl in Hstep. unfold add_frames in Hstep. revert Hstep.
        apply (for_result_invariant
                 (fun a b : group => grows a b
                    /\ forall k, skipped_key k = true -> k <> "stdobj" -> k <> "sciobj" ->
                         b !! k = a !! k)).
        * intros a. split; [apply grows_refl|reflexivity].
        * intros s1 s2 s3 [H12 K12] [H23 K23]. split; [eapply grows_trans; eauto|].
          intros k Hk Hs Hc. rewrite K23, K12 by assumption. reflexivity.
        * intros a idx b _ Hadd. apply add_frame_grows in Hadd as [Hg Ho].
          split; [exact Hg|]. intros k Hk Hs Hc. apply Ho; try assumption.
          intros ->. congruence. }
  destruct Hinv as [[Hdom Hpre] Hskip].
  split; [exact Hdom|]. split; [exact Hpre|].
  split; apply Hskip; (reflexivity || discriminate).
Qed.

(** The standards of [six_frames] added to [one_standard_group]. *)
Lemma fill_group_only_appends_witness :
  dom two_standards_group = dom one_standard_group
  /\ (forall k l, one_standard_group !! k = Some l ->
        exists l', two_standards_group !! k = Some (l ++ l'))
  /\ two_standards_group !! "unknown" = one_standard_group !! "unknown"
  /\ two_standards_group !! "dark" = one_standard_group !! "dark".
Proof.
  apply (fill_group_only_appends
           {| run_calcheck := false; reduce_setup := None; output_sorted := None;
              run_redname := "run.pypit"; mosaic_ndet := 1;
              spect_index := {[ "standard" := [[2; 4; 5]]%Z ]} |}
           six_frames ["dark"; "standard"] 0 1%Z one_standard_group two_standards_group).
  vm_compute. reflexivity.
Defined.

(** A loop whose frames are all listed already changes nothing, unless
    the type is science. *)
Lemma add_frames_idle fitsdict key scidx (g : group) names idxs :
  key <> "science" ->
  g !! key = Some names ->
  (forall idx, idx ∈ idxs ->
     exists f, pyindex (filename fitsdict) idx = Ok f /\ f ∈ names) ->
  add_frames fitsdict key scidx idxs g = Ok g.
Proof.
  intros Hns Hkey. unfold add_frames.
  induction idxs as [|idx rest IH]; intros Hall; [reflexivity|].
  destruct (Hall idx) as (f & Hf & Hin); [left|].
  assert (Hstep : add_frame fitsdict key scidx g idx = Ok g).
  { unfold add_frame. rewrite Hf. simpl.
    unfold getitem. rewrite Hkey. simpl.
    rewrite bool_decide_eq_true_2 by exact Hin. simpl.
    destruct (String.eqb_spec key "science") as [E|_]; [contradiction|reflexivity]. }
  cbn [for_result]. rewrite Hstep. simpl.
  apply IH. intros idx' Hidx'. apply Hall. right. exact Hidx'.
Qed.

Lemma add_frames_frames_exist fitsdict key scidx idxs :
  forall (g g' : group),
    add_frames fitsdict key scidx idxs g = Ok g' ->
    forall idx, idx ∈ idxs ->
      pyindex (filename fitsdict) idx = Ok (name_of fitsdict idx).
Proof.
  unfold add_frames. induction idxs as [|i rest IH]; intros g g' Hrun idx Hidx;
    [inversion Hidx|].
  cbn [for_result] in Hrun.
  destruct (add_frame fitsdict key scidx g i) as [g1|] eqn:Hstep; [|discriminate].
  simpl in Hrun. apply elem_of_cons in Hidx as [->|Hidx]; [|eapply IH; eauto].
  unfold add_frame in Hstep.
  destruct (pyindex (filename fitsdict) i) as [f|] eqn:Hf; [|discriminate].
  rewrite (pyindex_name_of _ _ _ Hf). reflexivity.
Qed.

Lemma add_frames_key_present fitsdict key scidx idx rest (g g' : group) :
  add_frames fitsdict key scidx (idx :: rest) g = Ok g' ->
  exists names, g !! key = Some names.
Proof.
  unfold add_frames. cbn [for_result].
  destruct (add_frame fitsdict key scidx g idx) as [g1|] eqn:Hstep; [|discriminate].
  intros _. unfold add_frame in Hstep.
  destruct (pyindex (filename fitsdict) idx); [|discriminate]. simpl in Hstep.
  unfold getitem in Hstep at 1. destruct (g !! key); [eauto|discriminate].
Qed.

(** X21: listing the same frames again changes nothing. For a type other
    than science, when the loop on the frames [idxs] has brought a group to
    [g'], the same loop run on [g'] ends normally and leaves [g'] as it is:
    the exposures that share calibration frames list them once. *)
Theorem add_frames_idempotent fitsdict key scidx idxs (g g' : group) :
  key <> "science" -> key <> "sciobj" -> key <> "stdobj" ->
  add_frames fitsdict key scidx idxs g = Ok g' ->
  add_frames fitsdict key scidx idxs g' = Ok g'.
Proof.
  intros Hns Hsci Hstd Hrun. destruct idxs as [|idx rest]; [reflexivity|].
  destruct (add_frames_key_present _ _ _ _ _ _ _ Hrun) as (names & Hkey).
  destruct (add_frames_lists fitsdict key scidx Hsci Hstd _ _ _ _ Hrun Hkey)
    as (Hk & _ & _).
  eapply add_frames_idle; [exact Hns|exact Hk|].
  intros i Hi. exists (name_of fitsdict i). split.
  - eapply add_frames_frames_exist; eauto.
  - apply new_frames_covers. exact Hi.
Qed.

Lemma add_frames_idempotent_witness :
  add_frames six_frames "standard" 1 [2; 4; 5]%Z two_standards_group
  = Ok two_standards_group.
Proof.
  apply (add_frames_idempotent six_frames "standard" 1%Z [2; 4; 5]%Z one_standard_group
           two_standards_group).
  - discriminate.
  - discriminate.
  - discriminate.
  - vm_compute. reflexivity.
Defined.

(** *** A new group *)

Abbreviation init_step :=
  (fun (g : group) (key : string) =>
     <["stdobj" := []]> (<["sciobj" := []]> (if skipped_key key then g else <[key := []]> g))).

Lemma init_step_present (g : group) key k :
  is_Some (g !! k) -> is_Some (init_step g key !! k).
Proof.
  intros H.
  destruct (decide (k = "stdobj")) as [->|H1]; [rewrite lookup_insert_eq; eauto|].
  rewrite lookup_insert_ne by congruence.
  destruct (decide (k = "sciobj")) as [->|H2]; [rewrite lookup_insert_eq; eauto|].
  rewrite lookup_insert_ne by congruence.
  destruct (skipped_key key); [exact H|].
  destruct (decide (k = key)) as [->|H3]; [rewrite lookup_insert_eq; eauto|].
  rewrite lookup_insert_ne by congruence. exact H.
Qed.

Lemma init_fold_present keys : forall (g : group) k,
  is_Some (g !! k) -> is_Some (fold_left init_step keys g !! k).
Proof.
  induction keys as [|key rest IH]; intros g k H; [exact H|].
  simpl. apply IH. apply (init_step_present g key k H).
Qed.

Lemma init_step_own (g : group) key :
  skipped_key key = false -> is_Some (init_step g key !! key).
Proof.
  intros Hs.
  destruct (decide (key = "stdobj")) as [->|H1]; [rewrite lookup_insert_eq; eauto|].
  rewrite lookup_insert_ne by congruence.
  destruct (decide (key = "sciobj")) as [->|H2]; [rewrite lookup_insert_eq; eauto|].
  rewrite lookup_insert_ne by congruence.
  rewrite Hs. rewrite lookup_insert_eq. eauto.
Qed.

Lemma init_fold_key_present keys k : forall (g : group),
  k ∈ keys -> skipped_key k = false ->
  is_Some (fold_left init_step keys g !! k).
Proof.
  induction keys as [|key rest IH]; intros g Hk Hs; [inversion Hk|].
  simpl. apply elem_of_cons in Hk as [->|Hk].
  - apply init_fold_present. apply init_step_own. exact Hs.
  - apply IH; assumption.
Qed.

Lemma init_fold_empty_lists keys : forall (g : group),
  (forall k l, g !! k = Some l -> l = []) ->
  forall k l, fold_left init_step keys g !! k = Some l -> l = [].
Proof.
  induction keys as [|key rest IH]; intros g Hg k l H; [eauto|].
  simpl in H. eapply IH; [|exact H]. clear H k l. intros k l H.
  destruct (decide (k = "stdobj")) as [->|H1];
    [rewrite lookup_insert_eq in H; congruence|].
  rewrite lookup_insert_ne in H by congruence.
  destruct (decide (k = "sciobj")) as [->|H2];
    [rewrite lookup_insert_eq in H; congruence|].
  rewrite lookup_insert_ne in H by congruence.
  destruct (skipped_key key); [eauto|].
  destruct (decide (k = key)) as [->|H3];
    [rewrite lookup_insert_eq in H; congruence|].
  rewrite lookup_insert_ne in H by congruence. eauto.
Qed.

Lemma init_fold_skipped keys k : forall (g : group),
  skipped_key k = true -> k <> "stdobj" -> k <> "sciobj" ->
  fold_left init_step keys g !! k = g !! k.
Proof.
  intros g Hk H1 H2. revert g.
  induction keys as [|key rest IH]; intros g; [reflexivity|].
  simpl. rewrite IH. rewrite !lookup_insert_ne by congruence.
  destruct (skipped_key key) eqn:Hs; [reflexivity|].
  apply lookup_insert_ne. intros ->. congruence.
Qed.

(** X22: a new group holds an empty list for every frame type of
    [filesort] but [unknown] and [dark], which it leaves out, and (as soon
    as [filesort] has a key) empty lists of science and standard targets;
    it holds nothing but empty lists. *)
Theorem init_group_lists (keys : list string) :
  (forall k, k ∈ keys -> skipped_key k = false -> init_group keys !! k = Some [])
  /\ (keys <> [] -> init_group keys !! "sciobj" = Some []
                    /\ init_group keys !! "stdobj" = Some [])
  /\ init_group keys !! "unknown" = None
  /\ init_group keys !! "dark" = None
  /\ (forall k l, init_group keys !! k = Some l -> l = []).
Proof.
  assert (Hempty : forall k l, init_group keys !! k = Some l -> l = []).
  { unfold init_group. apply init_fold_empty_lists. intros k l H.
    rewrite lookup_empty in H. discriminate. }
  assert (Hsome : forall k, is_Some (init_group keys !! k) -> init_group keys !! k = Some []).
  { intros k [l Hl]. rewrite Hl. f_equal. eapply Hempty; eauto. }
  split; [|split; [|split; [|split]]].
  - intros k Hk Hs. apply Hsome. unfold init_group.
    apply init_fold_key_present; assumption.
  - intros Hne. destruct keys as [|key rest]; [contradiction|].
    split; apply Hsome; unfold init_group; simpl; apply init_fold_present.
    + rewrite lookup_insert_ne by discriminate. rewrite lookup_insert_eq. eauto.
    + rewrite lookup_insert_eq. eauto.
  - unfold init_group. rewrite init_fold_skipped; [apply lookup_empty| | |];
      (reflexivity || discriminate).
  - unfold init_group. rewrite init_fold_skipped; [apply lookup_empty| | |];
      (reflexivity || discriminate).
  - exact Hempty.
Qed.

End GroupFacts.

(** ** No science frame *)

Section SetupScienceEmpty.

Context {SetupDict : Type}.
Variable empty_setup : SetupDict.
Variable instr_setup : Z -> Z -> Fitsdict -> SetupDict -> string * SetupDict.
Variable load_setup : SetupDict.
Variable sort_data : Fitsdict -> bool -> list (string * list Z).
Variable new_ScienceExposure : nat -> Fitsdict -> bool -> ScienceExposure.
Variable int_of_string : string -> option Z.

(** X23: with no science frame among the sorted files, a run outside the
    calibration check (and not stopped by a setup restriction without setup
    file) returns the empty list: it constructs no exposure and writes a
    group file with no group in it. *)
Theorem SetupScience_no_science_frame settings fitsdict setup_file nexist
    (tr : list (@event SetupDict)) :
  science_frames (sort_data fitsdict false) = Some [] ->
  run_calcheck settings = false ->
  reduce_setup settings = None \/ nexist <> 0%Z ->
  exists evs,
    SetupScience empty_setup instr_setup (setup_file, nexist) load_setup sort_data
      new_ScienceExposure int_of_string settings fitsdict tr = (Ok [], tr ++ evs)
    /\ constructed evs = []
    /\ written_groups evs = Some ∅.
Proof.
  intros Hsci Hcal Hfilter. unfold SetupScience. rewrite Hcal.
  unfold science_frames in Hsci.
  destruct (list_find (fun kv : string * list Z => kv.1 = "science")
              (sort_data fitsdict false)) as [[n [k v]]|]; [|discriminate].
  simpl in Hsci. inversion Hsci; subst v. clear Hsci.
  assert (Hfirst : match reduce_setup settings with
                   | Some _ =>
                       if (nexist =? 0)%Z
                       then msgs_error
                              "No .setup file provided.  Cannot use 'reduce setup' in Settings file"
                       else done_with tt
                   | None => done_with tt
                   end = @done_with SetupDict unit tt).
  { destruct (reduce_setup settings); [|reflexivity].
    destruct (Z.eqb_spec nexist 0); [|reflexivity].
    destruct Hfilter; [discriminate|contradiction]. }
  rewrite Hfirst. unfold and_then, tell, done_with. simpl.
  destruct (output_sorted settings), (nexist =? 0)%Z; simpl;
    rewrite <- ?app_assoc; eexists; (split; [reflexivity|]); split; reflexivity.
Qed.

End SetupScienceEmpty.

Lemma SetupScience_no_science_frame_witness :
  exists evs,
    SetupScience tt (fun _ _ _ d => ("01", d)) ("run.setup", 0%Z) tt
      (fun _ _ => [("science", []); ("arc", [3]%Z)]) science_exposure decimal
      two_science_settings four_frames [] = (Ok [], [] ++ evs)
    /\ constructed evs = []
    /\ written_groups evs = Some ∅.
Proof.
  apply (SetupScience_no_science_frame tt (fun _ _ _ d => ("01", d)) tt
           (fun _ _ => [("science", []); ("arc", [3]%Z)]) science_exposure decimal
           two_science_settings four_frames "run.setup" 0%Z []).
  - reflexivity.
  - reflexivity.
  - left. reflexivity.
Defined.
